(** * fraction-ai-bot: authentication and match orchestration

    A shallow embedding of [access_token.py] (class [FractionAIAuth]) and
    [bot.py] (class [GameSession], [main]) together with the properties
    of the token store, of the classification of a match-initiation
    response and of the runner loop.

    Conventions of the embedding.
    - A Python call either returns a value or raises: [outcome].
    - Mutable objects and the outside world are threaded explicitly: a
      program is a function from a state to an outcome and a new state
      ([prog]); a raise keeps the state reached so far, as in Python.
    - Everything the program does to the outside is appended to a trace
      of [event]s: log lines, sleeps, HTTP requests, file writes.
    - What the outside answers is read from an [environ]: the replies of
      the two HTTP clients, the wallet library, the clock.
    - A coroutine is a state machine over its suspension points
      ([coroutine]); [asyncio.gather] is a scheduler that resumes one
      pending task at a time, in an order chosen by a schedule. *)

From Stdlib Require Import ZArith QArith.QArith_base Lia Ascii String.
From stdpp Require Import base list strings gmap.

Local Open Scope string_scope.
Local Open Scope list_scope.

(** ** Python values and exceptions *)

(** The exception classes the two files raise, catch or let through.
    A constructor stands for the class and its subclasses: [ClientError]
    is [aiohttp.ClientError], [RequestException] is
    [requests.exceptions.RequestException] (connection errors, timeouts
    of [requests], [HTTPError] of [raise_for_status]). *)
Inductive exn : Type :=
  | TimeoutError
  | ClientError
  | RequestException
  | FileNotFoundError
  | TypeError
  | KeyError
  | ValueError
  | AttributeError
  | IndexError.

Inductive outcome (A : Type) : Type :=
  | Return (a : A)
  | Raise (e : exn).
Arguments Return {A} a.
Arguments Raise {A} e.

(** A decoded JSON document, as [response.json()] hands it to Python:
    [None], [bool], a number, [str], [list], [dict].  A [dict] is kept
    as its association list; a lookup takes the first binding. *)
#[warnings="-register-all"]
Inductive json : Type :=
  | JNull
  | JBool (b : bool)
  | JNum (q : Q)
  | JStr (s : string)
  | JArr (items : list json)
  | JObj (fields : list (string * json)).

(** [needle in hay] on two [str]: substring test. *)
Fixpoint str_contains (needle hay : string) : bool :=
  if String.prefix needle hay then true
  else match hay with
       | EmptyString => false
       | String _ rest => str_contains needle rest
       end.

Definition json_is_str (s : string) (v : json) : bool :=
  match v with
  | JStr s' => String.eqb s' s
  | _ => false
  end.

Fixpoint assoc (key : string) (fields : list (string * json)) : option json :=
  match fields with
  | [] => None
  | (k, v) :: rest => if String.eqb k key then Some v else assoc key rest
  end.

(** [needle in container] for a [str] needle: substring of a [str],
    element of a [list], key of a [dict]; [TypeError] on [None], a
    [bool] or a number ("argument of type ... is not iterable"). *)
Definition py_in (needle : string) (container : json) : outcome bool :=
  match container with
  | JStr s => Return (str_contains needle s)
  | JArr items => Return (existsb (json_is_str needle) items)
  | JObj fields => Return (bool_decide (is_Some (assoc needle fields)))
  | JNull | JBool _ | JNum _ => Raise TypeError
  end.

(** [container[key]] for a [str] key: the value of a [dict] ([KeyError]
    when absent); [TypeError] on every other value. *)
Definition py_getitem (container : json) (key : string) : outcome json :=
  match container with
  | JObj fields =>
      match assoc key fields with
      | Some v => Return v
      | None => Raise KeyError
      end
  | _ => Raise TypeError
  end.

(** Truth value of an [Optional[str]]: [None] and [''] are false. *)
Definition truthy (v : option string) : bool :=
  match v with
  | Some s => negb (String.eqb s "")
  | None => false
  end.

(** ** Programs: state passing with exceptions *)

Definition prog (S A : Type) : Type := S -> outcome A * S.

Definition ret {S A : Type} (a : A) : prog S A := fun s => (Return a, s).

Definition raise {S A : Type} (e : exn) : prog S A := fun s => (Raise e, s).

Definition bind {S A B : Type} (m : prog S A) (k : A -> prog S B) : prog S B :=
  fun s =>
    match m s with
    | (Return a, s') => k a s'
    | (Raise e, s') => (Raise e, s')
    end.

(** [try: body  except <classes> as e: handler e], where [catches] tells
    whether an exception is an instance of one of the listed classes. *)
Definition try_except {S A : Type} (body : prog S A) (catches : exn -> bool)
    (handler : exn -> prog S A) : prog S A :=
  fun s =>
    match body s with
    | (Return a, s') => (Return a, s')
    | (Raise e, s') => if catches e then handler e s' else (Raise e, s')
    end.

Definition lift_outcome {S A : Type} (o : outcome A) : prog S A :=
  fun s => (o, s).

Declare Scope prog_scope.
Delimit Scope prog_scope with prog.
Notation "x <- m ;; k" := (bind m (fun x => k))
  (at level 100, m at next level, right associativity) : prog_scope.
Notation "m ;;; k" := (bind m (fun _ => k))
  (at level 100, right associativity) : prog_scope.

(** ** The outside world *)

Inductive level : Type := INFO | WARNING | ERROR.

(** The log lines of the two files, by the statement that writes them. *)
Inductive message : Type :=
  | Nonce_attempt_failed (attempt max_retries : nat) (e : exn)
  | Failed_to_fetch_nonce
  | Authentication_failed (e : exn)
  | Token_refreshed_successfully
  | Failed_to_refresh_token
  | Match_initiated (agent_id : Z)
  | Agent_in_cooldown (agent_id : Z)
  | Error_initiating_match (data : json)
  | Attempt_failed (e : exn)
  | Error_processing_agent (agent_id : Z) (e : exn)
  | Successfully_processed_agent (agent_id : Z)
  | Completed_one_full_cycle
  | Failed_to_initialize_token.

(** The body of [POST /matchmaking/initiate]. *)
Record MatchRequest : Type := {
  agentId : Z;
  entryFees : Q;
  sessionTypeId : Z;
  userId : Z
}.

Inductive event : Type :=
  | Log (lvl : level) (msg : message)
  | Sleep (secs : Z)
  | HttpGet (url : string)
  | HttpPost (url : string) (message signature : string)
  | FileWrite (path content : string)
  | RefreshToken (private_key : option string)
  | Initiate (url : string) (headers : gmap string string) (payload : MatchRequest).

(** Answer of the server to one call of [requests.get] or
    [requests.post]: the call itself raises, or a response comes back
    with a status and with what [response.json().get(key)] yields on it
    (the string under the key, [None] when the body has no such key, or
    the exception of the decoding).  Only a string under the key is
    covered; a value of another type there is outside the embedding. *)
Inductive reply : Type :=
  | Raises (e : exn)
  | Response (status : Z) (field : outcome (option string)).

(** Answer to one [session.post] of [initiate_match]: entering the
    request raises, or a response comes back with a status and with the
    outcome of [await response.json()]. *)
Inductive post_reply : Type :=
  | PostRaises (e : exn)
  | PostResponse (status : Z) (body : outcome json).

Record environ : Type := {
  (** [os.getenv('PRIVATE_KEY')] *)
  PRIVATE_KEY : option string;
  (** [Account.from_key(private_key).address] *)
  from_key : option string -> outcome string;
  (** [Account.sign_message(encode_defunct(text=message), key).signature.hex()] *)
  sign : option string -> string -> string;
  (** [datetime.now(timezone.utc).isoformat()] *)
  utcnow : string;
  (** [os.linesep] *)
  linesep : string;
  (** the reply to the n-th call of [requests] since the process started *)
  auth_net : nat -> reply;
  (** the reply to the [session.post] of a cycle for a roster position *)
  initiate_net : nat -> nat -> post_reply;
  (** the index [random.choice] draws in a cycle for a roster position *)
  fee_draw : nat -> nat -> nat
}.

(** The part of the state outside the [GameSession] object. *)
Record world : Type := {
  (** content of [access_token.txt]; [None] when the file does not exist *)
  fs : option string;
  (** number of [requests] calls made so far *)
  requests_made : nat;
  trace : list event
}.

Definition emit {S : Type} (upd : (list event -> list event) -> S -> S) (e : event) : prog S unit :=
  fun s => (Return tt, upd (fun t => t ++ [e]) s).

Definition world_trace (f : list event -> list event) (w : world) : world :=
  {| fs := fs w; requests_made := requests_made w; trace := f (trace w) |}.

Definition log (lvl : level) (msg : message) : prog world unit :=
  emit world_trace (Log lvl msg).

(** ** Text files

    [access_token.txt] is opened in text mode.  On writing, every
    newline of the text becomes [os.linesep]; on reading, the line ends
    [\r\n] and [\r] become [\n] (universal newlines).  Characters are
    code points below 256. *)

Definition LF : ascii := ascii_of_nat 10.
Definition CR : ascii := ascii_of_nat 13.

Fixpoint write_translate (sep : string) (s : string) : string :=
  match s with
  | EmptyString => EmptyString
  | String c rest =>
      if Ascii.eqb c LF then sep +:+ write_translate sep rest
      else String c (write_translate sep rest)
  end.

Fixpoint read_translate (s : string) : string :=
  match s with
  | EmptyString => EmptyString
  | String c rest =>
      if Ascii.eqb c CR then
        match rest with
        | String c' rest' =>
            if Ascii.eqb c' LF then String LF (read_translate rest')
            else String LF (read_translate rest)
        | EmptyString => String LF EmptyString
        end
      else String c (read_translate rest)
  end.

(** [c.isspace()] on a code point below 256: tab to carriage return,
    the separators 28 to 31, the space, NEL (133) and the no-break
    space (160). *)
Definition isspace (c : ascii) : bool :=
  let n := nat_of_ascii c in
  (((9 <=? n) && (n <=? 13)) || ((28 <=? n) && (n <=? 32))
   || (n =? 133) || (n =? 160))%nat.

Fixpoint lstrip (s : string) : string :=
  match s with
  | EmptyString => EmptyString
  | String c rest => if isspace c then lstrip rest else s
  end.

(** [rstrip] drops the white space at the end: a character stays when it
    is not white space or when something after it stays. *)
Fixpoint rstrip (s : string) : string :=
  match s with
  | EmptyString => EmptyString
  | String c rest =>
      match rstrip rest with
      | EmptyString => if isspace c then EmptyString else String c EmptyString
      | kept => String c kept
      end
  end.

(** [s.strip()] *)
Definition strip (s : string) : string := rstrip (lstrip s).

Definition ACCESS_TOKEN_TXT : string := "access_token.txt".

(** ** access_token.py: class FractionAIAuth *)

Record FractionAIAuth : Type := {
  private_key : option string;
  wallet_address : string
}.

Definition BASE_URL : string := "https://dapp-backend-large.fractionai.xyz/api3".

(** [except requests.exceptions.RequestException] *)
Definition is_RequestException (e : exn) : bool :=
  match e with
  | RequestException => true
  | _ => false
  end.

(** [response.raise_for_status()]: [HTTPError] on a status from 400 to
    599. *)
Definition raise_for_status {S : Type} (status : Z) : prog S unit :=
  if ((400 <=? status) && (status <? 600))%Z then raise RequestException
  else ret tt.

Local Open Scope prog_scope.

Section Program.

Context (env : environ).

(** [FractionAIAuth(private_key)] *)
Definition FractionAIAuth_init (key : option string) : outcome FractionAIAuth :=
  match from_key env key with
  | Return address => Return {| private_key := key; wallet_address := address |}
  | Raise e => Raise e
  end.

(** One call of [requests.get] or [requests.post] (with [timeout=10]):
    the request is recorded, the next reply of the server is consumed. *)
Definition requests_call (request : event) : prog world (Z * outcome (option string)) :=
  fun w =>
    let w' := {| fs := fs w;
                 requests_made := S (requests_made w);
                 trace := trace w ++ [request] |} in
    match auth_net env (requests_made w) with
    | Raises e => (Raise e, w')
    | Response status field => (Return (status, field), w')
    end.

(** The body of the [for attempt in range(max_retries)] loop of
    [fetch_nonce], over the attempts still to make. *)
Fixpoint fetch_nonce_loop (max_retries : nat) (attempts : list nat)
    : prog world (option string) :=
  match attempts with
  | [] => ret None
  | attempt :: rest =>
      try_except
        (response <- requests_call (HttpGet (BASE_URL +:+ "/auth/nonce"));;
         raise_for_status (fst response);;;
         lift_outcome (snd response))
        is_RequestException
        (fun e =>
           log ERROR (Nonce_attempt_failed (attempt + 1) max_retries e);;;
           if (attempt =? max_retries - 1)%nat then ret None
           else fetch_nonce_loop max_retries rest)
  end.

Definition fetch_nonce : prog world (option string) :=
  let max_retries := 3 in
  fetch_nonce_loop max_retries (seq 0 max_retries).

Definition nl : string := String LF EmptyString.

Definition generate_auth_payload (auth : FractionAIAuth) (nonce : string)
    : string * string :=
  let issued_at := utcnow env in
  let message :=
    "dapp.fractionai.xyz wants you to sign in with your Ethereum account:" +:+ nl
    +:+ wallet_address auth +:+ nl
    +:+ nl
    +:+ "Sign in with your wallet to Fraction AI." +:+ nl
    +:+ nl
    +:+ "URI: https://dapp.fractionai.xyz" +:+ nl
    +:+ "Version: 1" +:+ nl
    +:+ "Chain ID: 11155111" +:+ nl
    +:+ "Nonce: " +:+ nonce +:+ nl
    +:+ "Issued At: " +:+ issued_at in
  (message, issued_at).

Definition sign_message (auth : FractionAIAuth) (message : string) : string :=
  sign env (private_key auth) message.

Definition verify_dapp_auth (auth : FractionAIAuth) : prog world (option string) :=
  nonce <- fetch_nonce;;
  if negb (truthy nonce) then
    log ERROR Failed_to_fetch_nonce;;;
    ret None
  else
    try_except
      (let message := fst (generate_auth_payload auth (default "" nonce)) in
       let signature := sign_message auth message in
       response <- requests_call
                     (HttpPost (BASE_URL +:+ "/auth/verify") message signature);;
       raise_for_status (fst response);;;
       lift_outcome (snd response))
      is_RequestException
      (fun e =>
         log ERROR (Authentication_failed e);;;
         ret None).

End Program.

(** ** bot.py: class GameSession *)

Record GameSession : Type := {
  token : string;
  user_id : Z;
  headers : gmap string string;
  agent_ids : list Z;
  entry_fees : list Q;
  timeout : Z
}.

Definition set_token (self : GameSession) (t : string) : GameSession :=
  {| token := t; user_id := user_id self; headers := headers self;
     agent_ids := agent_ids self; entry_fees := entry_fees self;
     timeout := timeout self |}.

Definition set_headers (self : GameSession) (h : gmap string string) : GameSession :=
  {| token := token self; user_id := user_id self; headers := h;
     agent_ids := agent_ids self; entry_fees := entry_fees self;
     timeout := timeout self |}.

(** Generate request headers with current token. *)
Definition _generate_headers (self : GameSession) : gmap string string :=
  list_to_map
    [ ("Accept", "application/json");
      ("Authorization", "Bearer " +:+ token self);
      ("Content-Type", "application/json");
      ("Origin", "https://dapp.fractionai.xyz");
      ("Referer", "https://dapp.fractionai.xyz/");
      ("User-Agent", "Mozilla/5.0 (Windows NT 10.0; Win64; x64) AppleWebKit/537.36") ].

(** [GameSession(token, user_id)] *)
Definition GameSession_init (tok : string) (uid : Z) : GameSession :=
  let self := {| token := tok; user_id := uid; headers := ∅;
                 agent_ids := []; entry_fees := []; timeout := 0 |} in
  {| token := tok;
     user_id := uid;
     headers := _generate_headers self;
     agent_ids := [26641; 26733; 26854; 39534; 39294; 39437;
                   79691; 79722; 79797; 79661; 79753; 79829;
                   85172; 85203; 85248; 85128; 85153]%Z;
     entry_fees := [1 # 10000; 1 # 1000]%Q;
     timeout := 30 |}.

(** The session object together with the world around it. *)
Record state : Type := {
  self : GameSession;
  out : world
}.

Definition state_trace (f : list event -> list event) (st : state) : state :=
  {| self := self st; out := world_trace f (out st) |}.

(** Run a program of the world inside a state. *)
Definition in_world {A : Type} (m : prog world A) : prog state A :=
  fun st =>
    let (r, w) := m (out st) in
    (r, {| self := self st; out := w |}).

Definition update_self (f : GameSession -> GameSession) : prog state unit :=
  fun st => (Return tt, {| self := f (self st); out := out st |}).

Definition get_self : prog state GameSession :=
  fun st => (Return (self st), st).

(** [with open(path, "w") as file: file.write(text)], for a [text] that
    is a [str]: the file is created or truncated and the text written. *)
Definition write_file (sep : string) (path text : string) : prog world unit :=
  fun w =>
    (Return tt,
     {| fs := Some (write_translate sep text);
        requests_made := requests_made w;
        trace := trace w ++ [FileWrite path text] |}).

(** [with open(path, "r") as file: file.read()] *)
Definition read_file : prog world string :=
  fun w =>
    match fs w with
    | Some content => (Return (read_translate content), w)
    | None => (Raise FileNotFoundError, w)
    end.

(** [random.choice(options)], the draw being given. *)
Definition random_choice {A : Type} (draw : nat) (options : list A) : outcome A :=
  match options !! (draw mod length options) with
  | Some x => Return x
  | None => Raise IndexError
  end.

(** [except (TimeoutError, aiohttp.ClientError)] *)
Definition is_TimeoutError_or_ClientError (e : exn) : bool :=
  match e with
  | TimeoutError | ClientError => true
  | _ => false
  end.

(** Where the body of [initiate_match] stands when it leaves a segment:
    at a [return], or in [await asyncio.sleep(secs)], after which every
    path of the function returns [None]. *)
Inductive suspension : Type :=
  | Returns (v : json)
  | Sleeps (secs : Z).

Definition asyncio_sleep (secs : Z) : prog state suspension :=
  emit state_trace (Sleep secs);;;
  ret (Sleeps secs).

Section Session.

Context (env : environ).

(** Refresh the authentication token.  The call is recorded on entry. *)
Definition refresh_token (key : option string) : prog state unit :=
  emit state_trace (RefreshToken key);;;
  auth <- lift_outcome (FractionAIAuth_init env key);;
  new_token <- in_world (verify_dapp_auth env auth);;
  if truthy new_token then
    update_self (fun g => set_token g (default "" new_token));;;
    update_self (fun g => set_headers g (_generate_headers g));;;
    in_world (write_file (linesep env) ACCESS_TOKEN_TXT (default "" new_token));;;
    in_world (log INFO Token_refreshed_successfully)
  else
    in_world (log ERROR Failed_to_refresh_token).

(** First segment of the [try] body of [initiate_match]: the payload is
    built and [session.post] is entered with the headers of the moment. *)
Definition send_request (agent_id : Z) (draw : nat) : prog state unit :=
  g <- get_self;;
  fee <- lift_outcome (random_choice draw (entry_fees g));;
  let payload := {| agentId := agent_id; entryFees := fee;
                    sessionTypeId := 1; userId := user_id g |} in
  emit state_trace
    (Initiate (BASE_URL +:+ "/matchmaking/initiate") (headers g) payload).

(** The last two statements of the [async with] block. *)
Definition log_error_and_wait (data : json) : prog state suspension :=
  in_world (log ERROR (Error_initiating_match data));;;
  asyncio_sleep 60.

(** Second segment of the [try] body: from the answer of the server to
    the next [return] or [await asyncio.sleep]. *)
Definition handle_response (agent_id : Z) (rep : post_reply) : prog state suspension :=
  match rep with
  | PostRaises e => raise e
  | PostResponse status body =>
      data <- lift_outcome body;;
      if (status =? 200)%Z then
        in_world (log INFO (Match_initiated agent_id));;;
        ret (Returns data)
      else
        has_error <- lift_outcome (py_in "error" data);;
        if (has_error : bool) then
          err <- lift_outcome (py_getitem data "error");;
          not_found <- lift_outcome (py_in "Not found" err);;
          if (not_found : bool) then
            in_world (log WARNING (Agent_in_cooldown agent_id));;;
            asyncio_sleep 180
          else
            invalid <- lift_outcome (py_in "Invalid token" err);;
            required <- (if (invalid : bool) then ret true
                         else lift_outcome (py_in "Authentication token required" err));;
            (if (required : bool) then refresh_token (PRIVATE_KEY env) else ret tt);;;
            log_error_and_wait data
        else
          log_error_and_wait data
  end.

(** The [except (TimeoutError, aiohttp.ClientError) as e] clause. *)
Definition except_clause (e : exn) : prog state suspension :=
  in_world (log ERROR (Attempt_failed e));;;
  asyncio_sleep 5.

(** [await self.initiate_match(session, agent_id)], driven to its end:
    the whole [try] statement, then the [return] the suspension leads
    to. *)
Definition initiate_match (agent_id : Z) (draw : nat) (rep : post_reply)
    : prog state json :=
  s <- try_except
         (send_request agent_id draw;;;
          handle_response agent_id rep)
         is_TimeoutError_or_ClientError
         except_clause;;
  match s with
  | Returns v => ret v
  | Sleeps _ => ret JNull
  end.

End Session.

(** ** Coroutines and the runner loop *)

(** The suspension points of one [initiate_match] coroutine: created and
    not yet run, waiting for the server ([session.post] and
    [response.json()]), waiting in [asyncio.sleep], finished with a
    value or with an exception. *)
Inductive coroutine : Type :=
  | Created
  | AwaitPost
  | AwaitSleep (secs : Z)
  | Done (r : outcome json).

Definition is_done (c : coroutine) : bool :=
  match c with
  | Done _ => true
  | _ => false
  end.

(** Truth value of a decoded JSON document. *)
Definition json_truthy (v : json) : bool :=
  match v with
  | JNull => false
  | JBool b => b
  | JNum q => negb (Qeq_bool q 0)
  | JStr s => negb (String.eqb s "")
  | JArr items => negb (bool_decide (items = []))
  | JObj fields => negb (bool_decide (fields = []))
  end.

(** The runner is at the top of its [while True] loop, inside
    [await asyncio.gather] (called with [return_exceptions=True]) on
    the tasks of the cycle, or inside the [await asyncio.sleep(10)] that
    ends the cycle.  A task is the coroutine object with the agent it
    was created for. *)
Inductive phase : Type :=
  | LoopTop
  | Gathering (tasks : list (Z * coroutine))
  | CycleSleep.

Record runner : Type := {
  now : state;
  at_phase : phase;
  cycle : nat
}.

(** The body of the [for agent_id, result in zip(...)] loop of [run]. *)
Definition report (agent_id : Z) (result : coroutine) : list event :=
  match result with
  | Done (Raise e) => [Log ERROR (Error_processing_agent agent_id e)]
  | Done (Return v) =>
      if json_truthy v then [Log INFO (Successfully_processed_agent agent_id)]
      else []
  | _ => []
  end.

Section Runner.

Context (env : environ).

Definition settle (r : outcome suspension * state) : coroutine * state :=
  match r with
  | (Return (Returns v), st) => (Done (Return v), st)
  | (Return (Sleeps secs), st) => (AwaitSleep secs, st)
  | (Raise e, st) => (Done (Raise e), st)
  end.

(** Run a coroutine from its suspension point to the next one.  The
    [except] clause of [initiate_match] covers both segments of the
    [try] body. *)
Definition resume (agent_id : Z) (draw : nat) (rep : post_reply)
    (c : coroutine) (st : state) : coroutine * state :=
  match c with
  | Created =>
      match send_request agent_id draw st with
      | (Return _, st') => (AwaitPost, st')
      | (Raise e, st') =>
          if is_TimeoutError_or_ClientError e then settle (except_clause e st')
          else (Done (Raise e), st')
      end
  | AwaitPost =>
      settle (try_except (handle_response env agent_id rep)
                is_TimeoutError_or_ClientError except_clause st)
  | AwaitSleep _ => (Done (Return JNull), st)
  | Done r => (Done r, st)
  end.

(** One step of [run] under a scheduler that picks the task to resume.
    - At the top of the loop the tasks are created, one per agent of
      the roster.
    - While some task is not done, the picked task runs to its next
      suspension point (a pick of a finished or missing task changes
      nothing).
    - Once all are done [gather] returns: the results are reported, the
      end of the cycle is logged and the runner sleeps 10 seconds.
    - When that sleep is over the loop starts again.
    The [except Exception] clause of the loop body is never entered:
    with [return_exceptions=True] the exceptions of the tasks are
    results of [gather], and nothing else in the body raises. *)
Definition step (pick : nat) (r : runner) : runner :=
  match at_phase r with
  | LoopTop =>
      {| now := now r;
         at_phase := Gathering (map (fun a => (a, Created)) (agent_ids (self (now r))));
         cycle := cycle r |}
  | Gathering tasks =>
      if forallb (fun t => is_done (snd t)) tasks then
        let results := map snd tasks in
        let lines :=
          concat (map (fun ar => report (fst ar) (snd ar))
                    (zip (agent_ids (self (now r))) results)) in
        {| now := state_trace
                    (fun t => t ++ lines
                                ++ [Log INFO Completed_one_full_cycle; Sleep 10])
                    (now r);
           at_phase := CycleSleep;
           cycle := cycle r |}
      else
        match tasks !! pick with
        | Some (agent_id, c) =>
            let (c', st') :=
              resume agent_id (fee_draw env (cycle r) pick)
                (initiate_net env (cycle r) pick) c (now r) in
            {| now := st';
               at_phase := Gathering (<[pick := (agent_id, c')]> tasks);
               cycle := cycle r |}
        | None => r
        end
  | CycleSleep =>
      {| now := now r; at_phase := LoopTop; cycle := S (cycle r) |}
  end.

(** [run], driven by a schedule: the picks of the scheduler in order. *)
Fixpoint run (schedule : list nat) (r : runner) : runner :=
  match schedule with
  | [] => r
  | pick :: rest => run rest (step pick r)
  end.

(** The token [main] starts with: the content of [access_token.txt]
    stripped, or a fresh token when there is no such file. *)
Definition main_token : prog world (option string) :=
  try_except
    (content <- read_file;;
     ret (Some (strip content)))
    (fun e => match e with FileNotFoundError => true | _ => false end)
    (fun _ =>
       auth <- lift_outcome (FractionAIAuth_init env (PRIVATE_KEY env));;
       tok <- verify_dapp_auth env auth;;
       (if truthy tok
        then write_file (linesep env) ACCESS_TOKEN_TXT (default "" tok)
        else ret tt);;;
       ret tok).

(** [main] up to the call of [game_session.run()]: the runner about to
    enter its loop, or [None] when no token could be obtained. *)
Definition main : prog world (option runner) :=
  tok <- main_token;;
  if negb (truthy tok) then
    log ERROR Failed_to_initialize_token;;;
    ret None
  else
    fun w =>
      (Return (Some {| now := {| self := GameSession_init (default "" tok) 17267;
                                 out := w |};
                       at_phase := LoopTop;
                       cycle := 0 |}),
       w).

End Runner.

(** ** Observations on traces and replies *)

Fixpoint count_events (p : event -> bool) (t : list event) : nat :=
  match t with
  | [] => 0
  | e :: rest => (if p e then 1 else 0) + count_events p rest
  end.

Definition is_RefreshToken (e : event) : bool :=
  match e with
  | RefreshToken _ => true
  | _ => false
  end.

Definition is_Sleep (e : event) : bool :=
  match e with
  | Sleep _ => true
  | _ => false
  end.

Definition is_HttpGet (e : event) : bool :=
  match e with
  | HttpGet _ => true
  | _ => false
  end.


(** Number of [refresh_token] calls recorded in a trace. *)
Definition refresh_calls (t : list event) : nat := count_events is_RefreshToken t.


(** Seconds spent in [asyncio.sleep] along a trace. *)
Fixpoint slept (t : list event) : Z :=
  match t with
  | [] => 0
  | Sleep secs :: rest => secs + slept rest
  | _ :: rest => slept rest
  end.

(** The events [access_token.py] produces: log lines and HTTP requests,
    to which [refresh_token] and [main] add the write of the file. *)
Definition auth_event (e : event) : bool :=
  match e with
  | Log _ _ | HttpGet _ | HttpPost _ _ _ | FileWrite _ _ => true
  | Sleep _ | RefreshToken _ | Initiate _ _ _ => false
  end.

(** What the [try] body of [fetch_nonce] does on a reply: the exception
    of the call, [HTTPError] on a status from 400 to 599, otherwise what
    [response.json().get('nonce')] yields. *)
Definition attempt (r : reply) : outcome (option string) :=
  match r with
  | Raises e => Raise e
  | Response status field =>
      if ((400 <=? status) && (status <? 600))%Z then Raise RequestException
      else field
  end.

(** The attempt is retried: it raised a [RequestException]. *)
Definition attempt_fails (r : reply) : bool :=
  match attempt r with
  | Raise e => is_RequestException e
  | Return _ => false
  end.

(** A failed attempt in the words of the specification: a transport
    error or a status outside 200..299. *)
Definition transport_error_or_non_2xx (r : reply) : bool :=
  match r with
  | Raises _ => true
  | Response status _ => negb ((200 <=? status) && (status <? 300))%Z
  end.

(** The answer sends [handle_response] into [refresh_token]: the status
    is not 200, the body has an ["error"] entry without the ["Not found"]
    marker and with one of the two token markers. *)
Definition auth_expired (rep : post_reply) : bool :=
  match rep with
  | PostResponse status (Return data) =>
      negb (status =? 200)%Z &&
      match py_in "error" data with
      | Return true =>
          match py_getitem data "error" with
          | Return err =>
              match py_in "Not found" err with
              | Return false =>
                  match py_in "Invalid token" err with
                  | Return true => true
                  | Return false =>
                      match py_in "Authentication token required" err with
                      | Return required => required
                      | Raise _ => false
                      end
                  | Raise _ => false
                  end
              | _ => false
              end
          | Raise _ => false
          end
      | _ => false
      end
  | _ => false
  end.

(** The answers the specification lists for [initiate]: a success, a
    transport failure or timeout, an error whose body is an object with
    no ["error"] entry or with a string under it. *)
Definition classified (rep : post_reply) : bool :=
  match rep with
  | PostRaises e => is_TimeoutError_or_ClientError e
  | PostResponse _ (Raise e) => is_TimeoutError_or_ClientError e
  | PostResponse status (Return data) =>
      (status =? 200)%Z ||
      match data with
      | JObj fields =>
          match assoc "error" fields with
          | None | Some (JStr _) => true
          | Some _ => false
          end
      | _ => false
      end
  end.

(** Work left in a coroutine, in resumptions. *)
Definition remaining (c : coroutine) : nat :=
  match c with
  | Created => 3
  | AwaitPost => 2
  | AwaitSleep _ => 1
  | Done _ => 0
  end.

(** Sum over the tasks of a weight that may depend on the position. *)
Fixpoint weigh (f : nat -> Z * coroutine -> nat) (k : nat)
    (tasks : list (Z * coroutine)) : nat :=
  match tasks with
  | [] => 0
  | t :: rest => f k t + weigh f (S k) rest
  end.

(** What a task still owes to the count of the events selected by [p],
    when [p] selects [q a] of the requests for agent [a] and [rk] of the
    calls of [refresh_token]: its request while it is not sent, the
    refresh while its answer is not handled. *)
Definition owed (q : Z -> nat) (rk : nat) (env : environ) (cyc i : nat)
    (t : Z * coroutine) : nat :=
  match snd t with
  | Created => q (fst t) + (if auth_expired (initiate_net env cyc i) then rk else 0)
  | AwaitPost => if auth_expired (initiate_net env cyc i) then rk else 0
  | _ => 0
  end.

(** Calls of [refresh_token] the tasks of a cycle still owe. *)
Definition refresh_owed : environ -> nat -> nat -> Z * coroutine -> nat :=
  owed (fun _ => 0) 1.


(** Number of roster positions whose answer in a cycle leads to
    [refresh_token]. *)
Definition expired_agents (env : environ) (cyc : nat) (roster : list Z) : nat :=
  weigh (refresh_owed env cyc) 0 (map (fun a => (a, Created)) roster).

(** The world once a request of [requests] has been sent. *)
Definition after_request (request : event) (w : world) : world :=
  {| fs := fs w; requests_made := S (requests_made w);
     trace := trace w ++ [request] |}.

(** Two worlds that differ by their traces only. *)
Definition same_net (w1 w2 : world) : Prop :=
  requests_made w1 = requests_made w2 /\ fs w1 = fs w2.

(** The state once some events have been appended to its trace, and the
    relation between two states that differ by such events only. *)
Definition add_events (evs : list event) (st : state) : state :=
  state_trace (fun t => t ++ evs) st.

Definition adds (evs : list event) (st st' : state) : Prop :=
  self st' = self st /\
  fs (out st') = fs (out st) /\
  requests_made (out st') = requests_made (out st) /\
  trace (out st') = trace (out st) ++ evs.

(** The request [send_request] records. *)
Definition initiate_event (g : GameSession) (agent_id : Z) (fee : Q) : event :=
  Initiate (BASE_URL +:+ "/matchmaking/initiate") (headers g)
    {| agentId := agent_id; entryFees := fee; sessionTypeId := 1;
       userId := user_id g |}.

(** The process is started again: the file stays, the rest is new. *)
Definition restart (w : world) : world :=
  {| fs := fs w; requests_made := 0; trace := [] |}.

(** The session keeps its [Authorization] header in step with its token. *)
Definition header_matches_token (g : GameSession) : Prop :=
  headers g !! "Authorization" = Some ("Bearer " +:+ token g).

(** No white space at either end, no carriage return inside. *)
Definition starts_clean (s : string) : bool :=
  match s with
  | EmptyString => true
  | String c _ => negb (isspace c)
  end.

Fixpoint ends_clean (s : string) : bool :=
  match s with
  | EmptyString => true
  | String c EmptyString => negb (isspace c)
  | String _ rest => ends_clean rest
  end.

Fixpoint no_CR (s : string) : bool :=
  match s with
  | EmptyString => true
  | String c rest => negb (Ascii.eqb c CR) && no_CR rest
  end.

(** Two sessions with the same roster, entry fees and user. *)
Definition same_roster (g g' : GameSession) : Prop :=
  agent_ids g' = agent_ids g /\ entry_fees g' = entry_fees g /\ user_id g' = user_id g.

(** What a step of the program does to a state, as far as the counts of
    events selected by [p] go: the session keeps its roster and the
    agreement of header and token, the trace grows by events of which
    [n] are selected. *)
Definition effect (p : event -> bool) (n : nat) (st st' : state) : Prop :=
  same_roster (self st) (self st') /\
  (header_matches_token (self st) -> header_matches_token (self st')) /\
  exists evs, trace (out st') = trace (out st) ++ evs /\ count_events p evs = n.

(** [p] selects none of the log lines, sleeps, authentication requests
    and file writes, [q a] of the requests for agent [a] and [rk] of the
    calls of [refresh_token]. *)
Definition selects (p : event -> bool) (q : Z -> nat) (rk : nat) : Prop :=
  (forall e, auth_event e || is_Sleep e = true -> p e = false) /\
  (forall url h payload,
     (if p (Initiate url h payload) then 1 else 0) = q (agentId payload)) /\
  (forall key, (if p (RefreshToken key) then 1 else 0) = rk).


(** Resumptions left before every task of a cycle is done. *)
Definition work (tasks : list (Z * coroutine)) : nat :=
  weigh (fun _ t => remaining (snd t)) 0 tasks.

Definition all_done (tasks : list (Z * coroutine)) : bool :=
  forallb (fun t => is_done (snd t)) tasks.

(** A call of [refresh_token] in which the authentication yields no
    token, and one in which it yields the token [tok]. *)
Definition authentication_fails (env : environ) (key : option string) (st : state) : Prop :=
  exists auth v,
    FractionAIAuth_init env key = Return auth /\
    fst (verify_dapp_auth env auth (out st)) = Return v /\
    truthy v = false.

Definition authentication_yields (env : environ) (key : option string) (st : state)
    (tok : string) : Prop :=
  exists auth,
    FractionAIAuth_init env key = Return auth /\
    fst (verify_dapp_auth env auth (out st)) = Return (Some tok) /\
    truthy (Some tok) = true.

(** ** The properties in the words of the specification

    Stated on the embedding as the specification has them; those that
    the code does not satisfy are refuted below and proved in the form
    the code has. *)

(** [fetch_nonce] returns the failure exactly when three attempts in a
    row fail by a transport error or a status outside 200..299. *)
Definition spec_nonce_failure (env : environ) (w : world) : Prop :=
  fst (fetch_nonce env w) = Return None <->
  (forall k, k < 3 ->
     transport_error_or_non_2xx (auth_net env (requests_made w + k)) = true).

(** One refresh per cycle, however many agents are told that their token
    is invalid. *)
Definition spec_single_refresh (env : environ) (schedule : list nat) (r : runner) : Prop :=
  at_phase r = LoopTop ->
  at_phase (run env schedule r) = CycleSleep ->
  cycle (run env schedule r) = cycle r ->
  0 < expired_agents env (cycle r) (agent_ids (self (now r))) ->
  refresh_calls (trace (out (now (run env schedule r))))
  = refresh_calls (trace (out (now r))) + 1.

(** After the refresh an expired call returns without sleeping. *)
Definition spec_refresh_without_delay (env : environ) (agent_id : Z) (draw : nat)
    (rep : post_reply) (st : state) : Prop :=
  auth_expired rep = true ->
  slept (trace (out (snd (initiate_match env agent_id draw rep st))))
  = slept (trace (out st)).

(** [initiate_match] returns a value whatever the answer is. *)
Definition spec_initiate_returns (env : environ) (agent_id : Z) (draw : nat)
    (rep : post_reply) (st : state) : Prop :=
  exists v, fst (initiate_match env agent_id draw rep st) = Return v.

(** Every status from 200 to 299 is a success carrying the payload. *)
Definition spec_success_on_2xx (env : environ) (agent_id : Z) (draw : nat)
    (status : Z) (data : json) (st : state) : Prop :=
  (200 <= status < 300)%Z ->
  fst (initiate_match env agent_id draw (PostResponse status (Return data)) st)
  = Return data.

(** The caller of [refresh_token] can tell a failed refresh from a
    successful one by what the call hands back. *)
Definition spec_failure_reported (report : outcome unit -> bool) : Prop :=
  forall env key st,
    (authentication_fails env key st ->
     report (fst (refresh_token env key st)) = true) /\
    (forall tok, authentication_yields env key st tok ->
     report (fst (refresh_token env key st)) = false).

(** The token a refresh writes is the token the next start reads. *)
Definition spec_round_trip (env : environ) (key : option string) (st : state)
    (tok : string) : Prop :=
  authentication_yields env key st tok ->
  fst (main_token env (restart (out (snd (refresh_token env key st)))))
  = Return (Some tok).

(** ** Sample environments *)

Definition sample_environ (auth : nat -> reply) (net : nat -> nat -> post_reply) : environ :=
  {| PRIVATE_KEY := Some "0x01";
     from_key := fun key =>
       match key with
       | Some _ => Return "0x7E5F4552091A69125d5DfCb7b8C2659029395Bdf"
       | None => Raise TypeError
       end;
     sign := fun _ _ => "0xsignature";
     utcnow := "2025-01-01T00:00:00+00:00";
     linesep := nl;
     auth_net := auth;
     initiate_net := net;
     fee_draw := fun _ _ => 0 |}.

(** The authentication server hands out a nonce, then the given token. *)
Definition auth_grants (tok : string) (n : nat) : reply :=
  if Nat.even n then Response 200 (Return (Some "abc123"))
  else Response 200 (Return (Some tok)).

(** The authentication server cannot be reached. *)
Definition auth_unreachable (n : nat) : reply := Raises RequestException.

(** The nonce endpoint answers 200 with a body that has no nonce. *)
Definition auth_without_nonce (n : nat) : reply := Response 200 (Return None).

Definition every_agent (rep : post_reply) (cyc i : nat) : post_reply := rep.

Definition invalid_token_reply : post_reply :=
  PostResponse 401 (Return (JObj [("error", JStr "Invalid token")])).

Definition not_found_reply : post_reply :=
  PostResponse 404 (Return (JObj [("error", JStr "Not found")])).

Definition null_error_reply : post_reply :=
  PostResponse 400 (Return (JObj [("error", JNull)])).

Definition created_reply : post_reply :=
  PostResponse 201 (Return (JObj [("id", JNum 1)])).

(** The first two agents of the roster are told that the token is
    invalid, the others get a match. *)
Definition two_agents_expired (cyc i : nat) : post_reply :=
  if (i <? 2)%nat then invalid_token_reply
  else PostResponse 200 (Return (JObj [("id", JNum 1)])).

Definition fresh_world : world := {| fs := None; requests_made := 0; trace := [] |}.

Definition sample_state : state :=
  {| self := GameSession_init "old-token" 17267; out := fresh_world |}.

Definition sample_runner : runner :=
  {| now := sample_state; at_phase := LoopTop; cycle := 0 |}.

(** A schedule for one cycle of the 17 agents under
    [two_agents_expired]: the fan-out; every task sends its request, in
    roster order; every task handles its answer, in roster order; the
    two tasks that went to sleep are woken; [gather] returns. *)
Definition sample_schedule : list nat :=
  [0] ++ seq 0 17 ++ seq 0 17 ++ [0; 1] ++ [0].

(** ** Further observations *)

Definition is_HttpPost (e : event) : bool :=
  match e with
  | HttpPost _ _ _ => true
  | _ => false
  end.

Definition is_Initiate (e : event) : bool :=
  match e with
  | Initiate _ _ _ => true
  | _ => false
  end.

Definition is_Log (e : event) : bool :=
  match e with
  | Log _ _ => true
  | _ => false
  end.

(** The events [fetch_nonce] produces: its requests and the line it
    logs for an attempt that failed. *)
Definition nonce_event (e : event) : bool :=
  match e with
  | HttpGet _ | Log ERROR (Nonce_attempt_failed _ _ _) => true
  | _ => false
  end.

(** The events [verify_dapp_auth] produces: those of [fetch_nonce], the
    request to [/auth/verify] and its own two error lines. *)
Definition verify_event (e : event) : bool :=
  match e with
  | HttpPost _ _ _
  | Log ERROR Failed_to_fetch_nonce
  | Log ERROR (Authentication_failed _) => true
  | _ => nonce_event e
  end.

(** The events [refresh_token] produces: the call itself, those of
    [verify_dapp_auth], the write of the file and its own two lines. *)
Definition refresh_event (e : event) : bool :=
  match e with
  | RefreshToken _
  | FileWrite _ _
  | Log INFO Token_refreshed_successfully
  | Log ERROR Failed_to_refresh_token => true
  | _ => verify_event e
  end.

(** The log lines of [access_token.py], [refresh_token] and
    [initiate_match], as opposed to those of [run] and [main]. *)
Definition task_line (msg : message) : bool :=
  match msg with
  | Nonce_attempt_failed _ _ _
  | Failed_to_fetch_nonce
  | Authentication_failed _
  | Token_refreshed_successfully
  | Failed_to_refresh_token
  | Match_initiated _
  | Agent_in_cooldown _
  | Error_initiating_match _
  | Attempt_failed _ => true
  | Error_processing_agent _ _
  | Successfully_processed_agent _
  | Completed_one_full_cycle
  | Failed_to_initialize_token => false
  end.

(** The events a task of a cycle may add to the trace. *)
Definition task_event (e : event) : bool :=
  match e with
  | Log _ msg => task_line msg
  | _ => true
  end.

(** The exception the request of [initiate_match] ends in, if any: that
    of [session.post] or that of [response.json()]. *)
Definition request_raises (rep : post_reply) : option exn :=
  match rep with
  | PostRaises e => Some e
  | PostResponse _ (Raise e) => Some e
  | PostResponse _ (Return _) => None
  end.

(** The session a [refresh_token] that obtained [tok] leaves: the token
    is assigned, then the headers are generated again. *)
Definition refreshed (g : GameSession) (tok : string) : GameSession :=
  set_headers (set_token g tok) (_generate_headers (set_token g tok)).

(** A property of the session and of the content of [access_token.txt]
    that every successful refresh keeps. *)
Definition kept_by_refresh (sep : string)
    (P : GameSession -> option string -> Prop) : Prop :=
  forall g f tok,
    P g f -> tok <> "" -> P (refreshed g tok) (Some (write_translate sep tok)).

(** The property at a state of the program. *)
Definition holds (P : GameSession -> option string -> Prop) (st : state) : Prop :=
  P (self st) (fs (out st)).

(** The session has a token. *)
Definition has_token (g : GameSession) (f : option string) : Prop :=
  token g <> "".

(** The headers of the session are those [_generate_headers] builds for
    its token. *)
Definition headers_generated (g : GameSession) (f : option string) : Prop :=
  headers g = _generate_headers g.

(** What the result of a task tells about the answer its request got: a
    truthy result is the body of an answer with status 200; an
    exception is none of those the [except] clause of [initiate_match]
    catches. *)
Definition result_sound (rep : post_reply) (c : coroutine) : Prop :=
  match c with
  | Done (Return v) => json_truthy v = true -> rep = PostResponse 200 (Return v)
  | Done (Raise e) => is_TimeoutError_or_ClientError e = false
  | _ => True
  end.

Definition results_sound (env : environ) (cyc : nat) (tasks : list (Z * coroutine)) : Prop :=
  forall i a c, tasks !! i = Some (a, c) -> result_sound (initiate_net env cyc i) c.

Definition results_sound_at (env : environ) (r : runner) : Prop :=
  match at_phase r with
  | Gathering tasks => results_sound env (cycle r) tasks
  | _ => True
  end.

(** What a line of the report of [run] tells: a success line for an
    agent stems from a cycle in which a roster position of that agent
    was answered with status 200 and a truthy body; an error line names
    an exception that [initiate_match] does not catch. *)
Definition line_sound (env : environ) (roster : list Z) (lo hi : nat) (e : event) : Prop :=
  match e with
  | Log _ (Successfully_processed_agent a) =>
      exists cyc i v,
        lo <= cyc <= hi /\
        roster !! i = Some a /\
        initiate_net env cyc i = PostResponse 200 (Return v) /\
        json_truthy v = true
  | Log _ (Error_processing_agent a e) => is_TimeoutError_or_ClientError e = false
  | _ => True
  end.

(** A wallet library that accepts no key. *)
Definition keyless_environ (net : nat -> nat -> post_reply) : environ :=
  {| PRIVATE_KEY := None;
     from_key := fun _ => Raise TypeError;
     sign := fun _ _ => "";
     utcnow := "2025-01-01T00:00:00+00:00";
     linesep := nl;
     auth_net := auth_unreachable;
     initiate_net := net;
     fee_draw := fun _ _ => 0 |}.

Definition timeout_reply : post_reply := PostRaises TimeoutError.

Definition server_error_reply : post_reply :=
  PostResponse 500 (Return (JObj [("message", JStr "Internal Server Error")])).

Definition world_with_file (content : string) : world :=
  {| fs := Some content; requests_made := 0; trace := [] |}.

(** The wallet of the sample key. *)
Definition sample_auth : FractionAIAuth :=
  {| private_key := Some "0x01";
     wallet_address := "0x7E5F4552091A69125d5DfCb7b8C2659029395Bdf" |}.

(** The lines [run] writes once [gather] has returned: one for each
    result that is an exception or is truthy, the results being paired
    with the roster. *)
Definition cycle_report (roster : list Z) (tasks : list (Z * coroutine)) : list event :=
  concat (map (fun ar => report (fst ar) (snd ar)) (zip roster (map snd tasks))).

(** * Properties *)

(** ** Traces *)

Lemma count_events_app (p : event -> bool) (t1 t2 : list event) :
  count_events p (t1 ++ t2) = count_events p t1 + count_events p t2.
Proof.
  induction t1 as [|e t1 IH]; simpl; [reflexivity|].
  rewrite IH. destruct (p e); lia.
Qed.

Lemma slept_app (t1 t2 : list event) :
  slept (t1 ++ t2) = (slept t1 + slept t2)%Z.
Proof.
  induction t1 as [|e t1 IH]; simpl; [reflexivity|].
  destruct e; rewrite ?IH; lia.
Qed.

Lemma auth_events_quiet (p : event -> bool) (t : list event) :
  (forall e, auth_event e = true -> p e = false) ->
  forallb auth_event t = true ->
  count_events p t = 0.
Proof.
  intros Hp. induction t as [|e t IH]; simpl; [reflexivity|].
  intros [He Ht]%andb_prop. rewrite (Hp e He), (IH Ht). reflexivity.
Qed.

Lemma auth_events_no_sleep (t : list event) :
  forallb auth_event t = true -> slept t = 0%Z.
Proof.
  induction t as [|e t IH]; simpl; [reflexivity|].
  intros [He Ht]%andb_prop. destruct e; simpl in He; try discriminate; auto.
Qed.

(** ** fetch_nonce *)

Section FetchNonce.

Context (env : environ).

(** One pass through a [try] body of [access_token.py]: the request,
    [raise_for_status], the field of the decoded body. *)
Lemma try_body_attempt (request : event) (w : world) :
  (response <- requests_call env request;;
   raise_for_status (fst response);;;
   lift_outcome (snd response)) w
  = (attempt (auth_net env (requests_made w)), after_request request w).
Proof.
  unfold bind, requests_call, raise_for_status, lift_outcome, attempt, after_request.
  destruct (auth_net env (requests_made w)) as [e|status field]; simpl; [reflexivity|].
  destruct ((400 <=? status)%Z && (status <? 600)%Z); reflexivity.
Qed.

Lemma fetch_nonce_loop_cons (max_retries a : nat) (rest : list nat) (w : world) :
  fetch_nonce_loop env max_retries (a :: rest) w
  = let w1 := after_request (HttpGet (BASE_URL +:+ "/auth/nonce")) w in
    match attempt (auth_net env (requests_made w)) with
    | Return v => (Return v, w1)
    | Raise e =>
        if is_RequestException e then
          let w2 := world_trace
                      (fun t => t ++ [Log ERROR (Nonce_attempt_failed (a + 1) max_retries e)])
                      w1 in
          if (a =? max_retries - 1)%nat then (Return None, w2)
          else fetch_nonce_loop env max_retries rest w2
        else (Raise e, w1)
    end.
Proof.
  cbn [fetch_nonce_loop]. unfold try_except at 1.
  rewrite try_body_attempt.
  destruct (attempt (auth_net env (requests_made w))) as [v|e]; [reflexivity|].
  destruct (is_RequestException e); [|reflexivity].
  unfold bind, log, emit, ret. cbn.
  destruct (a =? max_retries - 1)%nat; reflexivity.
Qed.


Local Ltac close_case :=
  repeat split; try lia;
  try (rewrite <- ?app_assoc; reflexivity);
  try (intros k Hk; destruct k as [|[|k]]; (assumption || lia));
  auto.

(** Three passes at most, none of them sleeping, and the outcome of the
    first attempt that is not retried. *)
Lemma fetch_nonce_cases (w : world) :
  let reply k := auth_net env (requests_made w + k) in
  let r := fetch_nonce env w in
  exists n evs,
    n < 3 /\
    (forall k, k < n -> attempt_fails (reply k) = true) /\
    requests_made (snd r) = requests_made w + S n /\
    fs (snd r) = fs w /\
    trace (snd r) = trace w ++ evs /\
    forallb auth_event evs = true /\
    count_events is_HttpGet evs = S n /\
    ((attempt_fails (reply n) = false /\ fst r = attempt (reply n)) \/
     (attempt_fails (reply n) = true /\ n = 2 /\ fst r = Return None)).
Proof.
  intros reply r. subst r. unfold fetch_nonce. cbn [seq].
  assert (H0 : auth_net env (requests_made w) = reply 0)
    by (unfold reply; f_equal; lia).
  assert (H1 : auth_net env (S (requests_made w)) = reply 1)
    by (unfold reply; f_equal; lia).
  assert (H2 : auth_net env (S (S (requests_made w))) = reply 2)
    by (unfold reply; f_equal; lia).
  clearbody reply.
  rewrite fetch_nonce_loop_cons. cbn zeta. rewrite H0.
  destruct (attempt (reply 0)) as [v0|e0] eqn:E0;
    [|destruct (is_RequestException e0) eqn:R0].
  - exists 0, [HttpGet (BASE_URL +:+ "/auth/nonce")]. cbn.
    unfold attempt_fails. rewrite E0. close_case.
  - assert (F0 : attempt_fails (reply 0) = true)
      by (unfold attempt_fails; rewrite E0; exact R0).
    cbn [Nat.eqb Nat.sub]. rewrite fetch_nonce_loop_cons. cbn zeta.
    cbn [requests_made world_trace after_request]. rewrite H1.
    destruct (attempt (reply 1)) as [v1|e1] eqn:E1;
      [|destruct (is_RequestException e1) eqn:R1].
    + exists 1. eexists. cbn. unfold attempt_fails at 2. rewrite E1. close_case.
    + assert (F1 : attempt_fails (reply 1) = true)
        by (unfold attempt_fails; rewrite E1; exact R1).
      cbn [Nat.eqb Nat.sub]. rewrite fetch_nonce_loop_cons. cbn zeta.
      cbn [requests_made world_trace after_request]. rewrite H2.
      destruct (attempt (reply 2)) as [v2|e2] eqn:E2;
        [|destruct (is_RequestException e2) eqn:R2].
      * exists 2. eexists. cbn. unfold attempt_fails at 2. rewrite E2. close_case.
      * assert (F2 : attempt_fails (reply 2) = true)
          by (unfold attempt_fails; rewrite E2; exact R2).
        exists 2. eexists. cbn. close_case.
      * exists 2. eexists. cbn. unfold attempt_fails at 2. rewrite E2, R2. close_case.
    + exists 1. eexists. cbn. unfold attempt_fails at 2. rewrite E1, R1. close_case.
  - exists 0, [HttpGet (BASE_URL +:+ "/auth/nonce")]. cbn.
    unfold attempt_fails. rewrite E0, R0. close_case.
Qed.

(** C6, as the code has it: [fetch_nonce] makes between one and three
    requests and never sleeps between them.  An attempt is retried when
    it raises a [RequestException] (a transport error, a status from 400
    to 599).  The first attempt that is not retried ends the call with
    its own outcome: the nonce of the body, or [None] when the body has
    no nonce.  After three retried attempts the call returns [None].  So
    [None] comes back exactly when three attempts in a row failed or
    when the first one that did not fail carried no nonce. *)
Theorem fetch_nonce_retries (w : world) :
  let reply k := auth_net env (requests_made w + k) in
  let r := fetch_nonce env w in
  (requests_made w < requests_made (snd r) <= requests_made w + 3) /\
  count_events is_HttpGet (trace (snd r))
  = count_events is_HttpGet (trace w) + (requests_made (snd r) - requests_made w) /\
  slept (trace (snd r)) = slept (trace w) /\
  (forall n, n < 3 ->
     (forall k, k < n -> attempt_fails (reply k) = true) ->
     attempt_fails (reply n) = false ->
     fst r = attempt (reply n) /\ requests_made (snd r) = requests_made w + S n) /\
  ((forall k, k < 3 -> attempt_fails (reply k) = true) ->
     fst r = Return None /\ requests_made (snd r) = requests_made w + 3) /\
  (fst r = Return None <->
     (forall k, k < 3 -> attempt_fails (reply k) = true) \/
     (exists n, n < 3 /\ (forall k, k < n -> attempt_fails (reply k) = true) /\
                attempt (reply n) = Return None)).
Proof.
  intros reply r.
  destruct (fetch_nonce_cases w)
    as (n0 & evs & Hn0 & Hpre & Hreq & _ & Htr & Hev & Hget & Hres).
  change (forall k, k < n0 -> attempt_fails (reply k) = true) in Hpre.
  change (attempt_fails (reply n0) = false /\ fst r = attempt (reply n0) \/
          attempt_fails (reply n0) = true /\ n0 = 2 /\ fst r = Return None) in Hres.
  change (requests_made (snd r) = requests_made w + S n0) in Hreq.
  change (trace (snd r) = trace w ++ evs) in Htr.
  clearbody reply r.
  assert (Huniq : forall n, n < 3 ->
            (forall k, k < n -> attempt_fails (reply k) = true) ->
            attempt_fails (reply n) = false ->
            n = n0 /\ fst r = attempt (reply n)).
  { intros n Hn Hlt Hok.
    destruct (Nat.lt_trichotomy n n0) as [Hlo|[->|Hhi]].
    - rewrite (Hpre n Hlo) in Hok. discriminate.
    - destruct Hres as [[_ Hr]|[Hf _]]; [auto|congruence].
    - pose proof (Hlt n0 Hhi) as Hf.
      destruct Hres as [[Hok0 _]|[_ [-> _]]]; [congruence|lia]. }
  assert (Hall : (forall k, k < 3 -> attempt_fails (reply k) = true) ->
            n0 = 2 /\ fst r = Return None).
  { intros Hf. destruct Hres as [[Hok _]|[_ [-> Hr]]]; [|auto].
    rewrite (Hf n0 Hn0) in Hok. discriminate. }
  split; [lia|]. split.
  { rewrite Htr, count_events_app, Hget. lia. }
  split.
  { rewrite Htr, slept_app, (auth_events_no_sleep evs Hev). lia. }
  split.
  { intros n Hn Hlt Hok. destruct (Huniq n Hn Hlt Hok) as [-> Hr]. auto. }
  split.
  { intros Hf. destruct (Hall Hf) as [-> Hr]. split; [exact Hr|lia]. }
  split.
  - intros Hnone. destruct Hres as [[Hok Hr]|[Hf [-> _]]].
    + right. exists n0. repeat split; [lia|exact Hpre|congruence].
    + left. intros k Hk. destruct (Nat.eq_dec k 2) as [->|Hne]; [exact Hf|].
      apply Hpre. lia.
  - intros [Hf|(n & Hn & Hlt & Hnone)].
    + apply (Hall Hf).
    + assert (Hok : attempt_fails (reply n) = false)
        by (unfold attempt_fails; rewrite Hnone; reflexivity).
      destruct (Huniq n Hn Hlt Hok) as [_ Hr]. congruence.
Qed.

(** The outcome of the loop depends on the world through the replies
    still to come only, not through the trace. *)
Lemma fetch_nonce_loop_same_net (max_retries : nat) (attempts : list nat) (w1 w2 : world) :
  same_net w1 w2 ->
  fst (fetch_nonce_loop env max_retries attempts w1)
  = fst (fetch_nonce_loop env max_retries attempts w2) /\
  same_net (snd (fetch_nonce_loop env max_retries attempts w1))
           (snd (fetch_nonce_loop env max_retries attempts w2)).
Proof.
  revert w1 w2. induction attempts as [|a rest IH]; intros w1 w2 [Hreq Hfs].
  - cbn. split; [reflexivity|split; assumption].
  - rewrite !fetch_nonce_loop_cons. cbn zeta. rewrite Hreq.
    destruct (attempt (auth_net env (requests_made w2))) as [v|e].
    + cbn. split; [reflexivity|]. split; cbn; congruence.
    + destruct (is_RequestException e).
      * destruct (a =? max_retries - 1)%nat.
        -- cbn. split; [reflexivity|]. split; cbn; congruence.
        -- apply IH. split; cbn; congruence.
      * cbn. split; [reflexivity|]. split; cbn; congruence.
Qed.

Lemma verify_dapp_auth_unfold (auth : FractionAIAuth) (w : world) :
  verify_dapp_auth env auth w
  = match fetch_nonce env w with
    | (Raise e, w1) => (Raise e, w1)
    | (Return nonce, w1) =>
        if negb (truthy nonce) then
          (Return None, world_trace (fun t => t ++ [Log ERROR Failed_to_fetch_nonce]) w1)
        else
          let message := fst (generate_auth_payload env auth (default "" nonce)) in
          let w2 := after_request
                      (HttpPost (BASE_URL +:+ "/auth/verify") message
                         (sign_message env auth message)) w1 in
          match attempt (auth_net env (requests_made w1)) with
          | Return v => (Return v, w2)
          | Raise e =>
              if is_RequestException e then
                (Return None,
                 world_trace (fun t => t ++ [Log ERROR (Authentication_failed e)]) w2)
              else (Raise e, w2)
          end
    end.
Proof.
  unfold verify_dapp_auth. unfold bind at 1.
  destruct (fetch_nonce env w) as [[nonce|e] w1]; [|reflexivity].
  destruct (negb (truthy nonce)); [reflexivity|].
  unfold try_except. cbn zeta. rewrite try_body_attempt.
  destruct (attempt (auth_net env (requests_made w1))) as [v|e]; [reflexivity|].
  destruct (is_RequestException e); reflexivity.
Qed.

Lemma verify_dapp_auth_same_net (auth : FractionAIAuth) (w1 w2 : world) :
  same_net w1 w2 ->
  fst (verify_dapp_auth env auth w1) = fst (verify_dapp_auth env auth w2) /\
  same_net (snd (verify_dapp_auth env auth w1)) (snd (verify_dapp_auth env auth w2)).
Proof.
  intros Hsame. rewrite !verify_dapp_auth_unfold.
  destruct (fetch_nonce_loop_same_net 3 (seq 0 3) w1 w2 Hsame) as [Hfst Hnet].
  fold (fetch_nonce env w1) in Hfst, Hnet. fold (fetch_nonce env w2) in Hfst, Hnet.
  destruct (fetch_nonce env w1) as [r1 u1], (fetch_nonce env w2) as [r2 u2].
  cbn in Hfst, Hnet. subst r2. destruct Hnet as [Hreq Hfs].
  destruct r1 as [nonce|e]; [|cbn; split; [reflexivity|split; assumption]].
  destruct (negb (truthy nonce)).
  { cbn. split; [reflexivity|split; assumption]. }
  cbn zeta. rewrite Hreq.
  destruct (attempt (auth_net env (requests_made u2))) as [v|e];
    [|destruct (is_RequestException e)];
    cbn; (split; [reflexivity|split; cbn; congruence]).
Qed.

(** [verify_dapp_auth] leaves the file alone and adds to the trace only
    log lines and requests. *)
Lemma verify_dapp_auth_frame (auth : FractionAIAuth) (w : world) :
  fs (snd (verify_dapp_auth env auth w)) = fs w /\
  exists evs,
    trace (snd (verify_dapp_auth env auth w)) = trace w ++ evs /\
    forallb auth_event evs = true.
Proof.
  rewrite verify_dapp_auth_unfold.
  destruct (fetch_nonce_cases w)
    as (n0 & evs & _ & _ & _ & Hfs & Htr & Hev & _ & _).
  destruct (fetch_nonce env w) as [[nonce|e] w1]; cbn in Hfs, Htr.
  - destruct (negb (truthy nonce)).
    + cbn. split; [exact Hfs|]. eexists. rewrite Htr, <- app_assoc.
      split; [reflexivity|]. rewrite forallb_app, Hev. reflexivity.
    + cbn zeta.
      destruct (attempt (auth_net env (requests_made w1))) as [v|e];
        [|destruct (is_RequestException e)]; cbn;
        (split; [exact Hfs|]); eexists; rewrite Htr, <- ?app_assoc;
        (split; [reflexivity|]); rewrite forallb_app, Hev; reflexivity.
  - cbn. split; [exact Hfs|]. exists evs. auto.
Qed.

End FetchNonce.

(** C6, in the words of the specification, fails: a 200 answer whose
    body has no nonce makes [fetch_nonce] return [None] after a single
    attempt that is neither a transport error nor a status outside
    200..299. *)
Lemma fetch_nonce_failure_without_exhaustion :
  ~ spec_nonce_failure
      (sample_environ auth_without_nonce (every_agent not_found_reply))
      fresh_world.
Proof.
  intros [Hfail _].
  assert (H : fst (fetch_nonce
                     (sample_environ auth_without_nonce (every_agent not_found_reply))
                     fresh_world) = Return None) by reflexivity.
  specialize (Hfail H 0 ltac:(lia)). vm_compute in Hfail. discriminate.
Qed.

(** The server grants a nonce on the first attempt. *)
Lemma fetch_nonce_retries_witness :
  fst (fetch_nonce (sample_environ (auth_grants "t") (every_agent not_found_reply))
         fresh_world)
  = Return (Some "abc123").
Proof.
  pose (env := sample_environ (auth_grants "t") (every_agent not_found_reply)).
  destruct (fetch_nonce_retries env fresh_world) as (_ & _ & _ & Hfirst & _).
  destruct (Hfirst 0) as [Hr _].
  - lia.
  - intros k Hk. lia.
  - reflexivity.
  - exact Hr.
Defined.

(** ** refresh_token *)

Section Refresh.

Context (env : environ).

Lemma refresh_token_unfold (key : option string) (st : state) :
  refresh_token env key st
  = let st1 := state_trace (fun t => t ++ [RefreshToken key]) st in
    match FractionAIAuth_init env key with
    | Raise e => (Raise e, st1)
    | Return auth =>
        match verify_dapp_auth env auth (out st1) with
        | (Raise e, w) => (Raise e, {| self := self st; out := w |})
        | (Return v, w) =>
            if truthy v then
              let tok := default "" v in
              let g := set_token (self st) tok in
              (Return tt,
               {| self := set_headers g (_generate_headers g);
                  out := {| fs := Some (write_translate (linesep env) tok);
                            requests_made := requests_made w;
                            trace := (trace w ++ [FileWrite ACCESS_TOKEN_TXT tok])
                                     ++ [Log INFO Token_refreshed_successfully] |} |})
            else
              (Return tt,
               {| self := self st;
                  out := world_trace (fun t => t ++ [Log ERROR Failed_to_refresh_token]) w |})
        end
    end.
Proof.
  unfold refresh_token, bind, emit, lift_outcome, in_world, update_self, log.
  cbn zeta.
  destruct (FractionAIAuth_init env key) as [auth|e]; [|reflexivity].
  cbn [self out state_trace].
  destruct (verify_dapp_auth env auth _) as [[v|e] w]; [|reflexivity].
  destruct (truthy v); reflexivity.
Qed.

(** The three ways a call of [refresh_token] ends: an exception of the
    wallet library or of the authentication escapes; no token was
    obtained; a token was obtained.  In the first two the session and
    the file are what they were. *)
Lemma refresh_token_cases (key : option string) (st : state) :
  let r := refresh_token env key st in
  exists evs,
    trace (out (snd r)) = trace (out st) ++ RefreshToken key :: evs /\
    forallb auth_event evs = true /\
    ((exists e,
        fst r = Raise e /\ self (snd r) = self st /\ fs (out (snd r)) = fs (out st) /\
        (FractionAIAuth_init env key = Raise e \/
         exists auth, FractionAIAuth_init env key = Return auth /\
                      fst (verify_dapp_auth env auth (out st)) = Raise e))
     \/
     (authentication_fails env key st /\
      fst r = Return tt /\ self (snd r) = self st /\ fs (out (snd r)) = fs (out st) /\
      exists evs', evs = evs' ++ [Log ERROR Failed_to_refresh_token])
     \/
     (exists tok,
        authentication_yields env key st tok /\
        fst r = Return tt /\
        self (snd r) = set_headers (set_token (self st) tok)
                         (_generate_headers (set_token (self st) tok)) /\
        fs (out (snd r)) = Some (write_translate (linesep env) tok) /\
        exists evs',
          evs = evs' ++ [FileWrite ACCESS_TOKEN_TXT tok;
                         Log INFO Token_refreshed_successfully])).
Proof.
  intros r. subst r. rewrite refresh_token_unfold. cbn zeta.
  set (st1 := state_trace (fun t => t ++ [RefreshToken key]) st).
  destruct (FractionAIAuth_init env key) as [auth|e] eqn:Einit.
  2:{ exists []. cbn. split; [reflexivity|]. split; [reflexivity|].
      left. exists e. auto. }
  assert (Hsame : same_net (out st1) (out st)) by (split; reflexivity).
  destruct (verify_dapp_auth_same_net env auth _ _ Hsame) as [Hfst _].
  destruct (verify_dapp_auth_frame env auth (out st1)) as (Hfs & evs & Htr & Hev).
  destruct (verify_dapp_auth env auth (out st1)) as [[v|e] w'] eqn:Ever;
    cbn [fst snd] in Hfst, Hfs, Htr.
  2:{ exists evs. cbn. rewrite Htr. cbn. rewrite <- app_assoc.
      split; [reflexivity|]. split; [exact Hev|].
      left. exists e. repeat split; auto. right. exists auth. auto. }
  destruct (truthy v) eqn:Etruthy.
  - destruct v as [tok|]; [|discriminate]. cbn [default].
    exists (evs ++ [FileWrite ACCESS_TOKEN_TXT tok; Log INFO Token_refreshed_successfully]).
    cbn. rewrite Htr. cbn. rewrite <- !app_assoc.
    split; [reflexivity|]. split; [rewrite forallb_app, Hev; reflexivity|].
    right. right. exists tok. repeat split.
    + exists auth. auto.
    + eauto.
  - exists (evs ++ [Log ERROR Failed_to_refresh_token]).
    cbn. rewrite Htr. cbn. rewrite <- !app_assoc.
    split; [reflexivity|]. split; [rewrite forallb_app, Hev; reflexivity|].
    right. left. repeat split; eauto.
    exists auth, v. auto.
Qed.

(** The two outcomes of an authentication exclude each other. *)
Lemma authentication_fails_not_yields (key : option string) (st : state) (tok : string) :
  authentication_fails env key st -> authentication_yields env key st tok -> False.
Proof.
  intros (auth & v & Hinit & Hver & Hfalse) (auth' & Hinit' & Hver' & Htrue).
  rewrite Hinit in Hinit'. injection Hinit' as <-.
  rewrite Hver in Hver'. injection Hver' as ->. congruence.
Qed.

Lemma authentication_yields_functional (key : option string) (st : state) (t1 t2 : string) :
  authentication_yields env key st t1 -> authentication_yields env key st t2 -> t1 = t2.
Proof.
  intros (auth & Hinit & Hver & _) (auth' & Hinit' & Hver' & _).
  rewrite Hinit in Hinit'. injection Hinit' as <-.
  rewrite Hver in Hver'. injection Hver' as ->. reflexivity.
Qed.

Lemma authentication_returns_not_raises (key : option string) (st : state) (e : exn) :
  (authentication_fails env key st \/ exists tok, authentication_yields env key st tok) ->
  (FractionAIAuth_init env key = Raise e \/
   exists auth, FractionAIAuth_init env key = Return auth /\
                fst (verify_dapp_auth env auth (out st)) = Raise e) ->
  False.
Proof.
  intros Hret Hraise.
  assert (exists auth v, FractionAIAuth_init env key = Return auth /\
            fst (verify_dapp_auth env auth (out st)) = Return v)
    as (auth & v & Hinit & Hver).
  { destruct Hret as [(auth & v & ? & ? & _)|(tok & auth & ? & ? & _)]; eauto. }
  destruct Hraise as [Hr|(auth' & Hinit' & Hr)]; [congruence|].
  rewrite Hinit in Hinit'. injection Hinit' as <-. congruence.
Qed.

(** C7, as the code has it: when the authentication of a
    [refresh_token] call yields no token, the session (token and
    headers) and the file are what they were before the call; the
    failure is written to the log and the call returns [None], which is
    also what a successful call returns. *)
Theorem failed_refresh_keeps_token (key : option string) (st : state) :
  authentication_fails env key st ->
  let r := refresh_token env key st in
  fst r = Return tt /\
  self (snd r) = self st /\
  fs (out (snd r)) = fs (out st) /\
  (exists evs,
     trace (out (snd r))
     = trace (out st) ++ RefreshToken key :: evs ++ [Log ERROR Failed_to_refresh_token]) /\
  (forall st' tok, authentication_yields env key st' tok ->
     fst (refresh_token env key st') = fst r).
Proof.
  intros Hfail r.
  assert (Hok : forall st' tok, authentication_yields env key st' tok ->
            fst (refresh_token env key st') = Return tt).
  { intros st' tok Hy.
    destruct (refresh_token_cases key st')
      as (evs & _ & _ & [(e & _ & _ & _ & Hraise)|[(Hf & _)|(tok' & _ & Hr & _)]]).
    - exfalso. apply (authentication_returns_not_raises key st' e); eauto.
    - exfalso. exact (authentication_fails_not_yields key st' tok Hf Hy).
    - exact Hr. }
  destruct (refresh_token_cases key st)
    as (evs & Htr & _ & [(e & _ & _ & _ & Hraise)|[(_ & Hr & Hself & Hfs & evs' & ->)|(tok & Hy & _)]]).
  - exfalso. apply (authentication_returns_not_raises key st e); auto.
  - fold r in Htr, Hr, Hself, Hfs. repeat split; auto.
    + exists evs'. exact Htr.
    + intros st' tok Hy. rewrite Hr. eauto.
  - exfalso. exact (authentication_fails_not_yields key st tok Hfail Hy).
Qed.

End Refresh.

(** The authentication server is down: the refresh fails. *)
Lemma failed_refresh_keeps_token_witness :
  token (self (snd (refresh_token
                      (sample_environ auth_unreachable (every_agent not_found_reply))
                      (Some "0x01") sample_state)))
  = "old-token".
Proof.
  pose (env := sample_environ auth_unreachable (every_agent not_found_reply)).
  assert (Hfail : authentication_fails env (Some "0x01") sample_state).
  { eexists. exists None. repeat split; reflexivity. }
  destruct (failed_refresh_keeps_token env (Some "0x01") sample_state Hfail)
    as (_ & Hself & _).
  exact (f_equal token Hself).
Defined.

(** C7, in the words of the specification, fails: no test on what
    [refresh_token] returns tells a failed refresh from a successful
    one.  With the authentication server down and with a server that
    grants a token the call returns the same [None]. *)
Lemma refresh_failure_not_reported :
  ~ exists report, spec_failure_reported report.
Proof.
  intros [report Hreport].
  destruct (Hreport (sample_environ auth_unreachable (every_agent not_found_reply))
              (Some "0x01") sample_state) as [Hfail _].
  destruct (Hreport (sample_environ (auth_grants "new-token") (every_agent not_found_reply))
              (Some "0x01") sample_state) as [_ Hok].
  assert (H1 : report (Return tt) = true).
  { apply Hfail. eexists. exists None. repeat split; reflexivity. }
  assert (H2 : report (Return tt) = false).
  { apply (Hok "new-token"). eexists. repeat split; reflexivity. }
  congruence.
Qed.

(** ** The token file *)

Lemma write_translate_nl (s : string) : write_translate nl s = s.
Proof.
  induction s as [|c s IH]; cbn; [reflexivity|].
  rewrite IH. destruct (Ascii.eqb_spec c LF) as [->|_]; reflexivity.
Qed.

Lemma read_translate_no_CR (s : string) : no_CR s = true -> read_translate s = s.
Proof.
  induction s as [|c s IH]; cbn; [reflexivity|].
  intros [Hc Hs]%andb_prop. destruct (Ascii.eqb c CR); [discriminate|].
  rewrite (IH Hs). reflexivity.
Qed.

Lemma read_write_translate_CRLF (s : string) :
  no_CR s = true -> read_translate (write_translate (String CR nl) s) = s.
Proof.
  induction s as [|c s IH]; cbn; [reflexivity|].
  intros [Hc Hs]%andb_prop.
  destruct (Ascii.eqb_spec c LF) as [->|Hne].
  - change (String CR nl +:+ ?x) with (String CR (String LF x)).
    cbn [read_translate].
    replace (Ascii.eqb CR CR) with true by reflexivity.
    replace (Ascii.eqb LF LF) with true by reflexivity.
    rewrite (IH Hs). reflexivity.
  - cbn [read_translate]. destruct (Ascii.eqb c CR); [discriminate|].
    rewrite (IH Hs). reflexivity.
Qed.

Lemma lstrip_clean (s : string) : starts_clean s = true -> lstrip s = s.
Proof.
  destruct s as [|c s]; cbn; [reflexivity|].
  destruct (isspace c); [discriminate|reflexivity].
Qed.

Lemma rstrip_clean (s : string) : ends_clean s = true -> rstrip s = s.
Proof.
  induction s as [|c s IH]; [reflexivity|].
  cbn [ends_clean rstrip]. destruct s as [|c' s'].
  - cbn. destruct (isspace c); [discriminate|reflexivity].
  - intros H. rewrite (IH H). reflexivity.
Qed.

Lemma strip_clean (s : string) :
  starts_clean s = true -> ends_clean s = true -> strip s = s.
Proof.
  intros H1 H2. unfold strip. rewrite (lstrip_clean s H1). apply rstrip_clean, H2.
Qed.

(** What [main] reads when the file exists. *)
Lemma main_token_reads_file (env : environ) (w : world) (content : string) :
  fs w = Some content ->
  main_token env w = (Return (Some (strip (read_translate content))), w).
Proof.
  intros Hfs. unfold main_token, try_except, bind, read_file, ret.
  rewrite Hfs. reflexivity.
Qed.

(** C8, as the code has it: after a refresh that obtained a token, the
    token [main] starts with after a restart is the content of the file
    read in text mode and stripped.  It is the token that was written
    whenever that token has no white space at either end and no carriage
    return, on a platform whose line separator is [\n] or [\r\n]. *)
Theorem refreshed_token_read_back (env : environ) (key : option string)
    (st : state) (tok : string) :
  authentication_yields env key st tok ->
  let w' := restart (out (snd (refresh_token env key st))) in
  fst (main_token env w')
  = Return (Some (strip (read_translate (write_translate (linesep env) tok)))) /\
  (starts_clean tok = true -> ends_clean tok = true -> no_CR tok = true ->
   linesep env = nl \/ linesep env = String CR nl ->
   fst (main_token env w') = Return (Some tok)).
Proof.
  intros Hy w'.
  assert (Hfs : fs w' = Some (write_translate (linesep env) tok)).
  { subst w'. cbn [restart fs].
    destruct (refresh_token_cases env key st)
      as (evs & _ & _ & [(e & _ & _ & _ & Hraise)|[(Hf & _)|(tok' & Hy' & _ & _ & Hfs & _)]]).
    - exfalso. apply (authentication_returns_not_raises env key st e); eauto.
    - exfalso. exact (authentication_fails_not_yields env key st tok Hf Hy).
    - rewrite (authentication_yields_functional env key st tok tok' Hy Hy'). exact Hfs. }
  rewrite (main_token_reads_file env w' _ Hfs). cbn [fst].
  split; [reflexivity|].
  intros Hstart Hend Hcr [Hsep|Hsep]; rewrite Hsep.
  - rewrite write_translate_nl, (read_translate_no_CR tok Hcr), (strip_clean tok Hstart Hend).
    reflexivity.
  - rewrite (read_write_translate_CRLF tok Hcr), (strip_clean tok Hstart Hend).
    reflexivity.
Qed.

(** A token without white space comes back as it was written. *)
Lemma refreshed_token_read_back_witness :
  fst (main_token (sample_environ (auth_grants "new-token") (every_agent not_found_reply))
         (restart (out (snd (refresh_token
                               (sample_environ (auth_grants "new-token")
                                  (every_agent not_found_reply))
                               (Some "0x01") sample_state)))))
  = Return (Some "new-token").
Proof.
  pose (env := sample_environ (auth_grants "new-token") (every_agent not_found_reply)).
  assert (Hy : authentication_yields env (Some "0x01") sample_state "new-token").
  { eexists. repeat split; reflexivity. }
  destruct (refreshed_token_read_back env (Some "0x01") sample_state "new-token" Hy)
    as [_ Hsame].
  apply Hsame; try reflexivity. left. reflexivity.
Defined.

(** C8, in the words of the specification, fails: a token that starts
    with a space is written as it is and read back without the space. *)
Lemma padded_token_not_read_back :
  ~ spec_round_trip
      (sample_environ (auth_grants " padded") (every_agent not_found_reply))
      (Some "0x01") sample_state " padded".
Proof.
  intros Hspec.
  assert (Hy : authentication_yields
                 (sample_environ (auth_grants " padded") (every_agent not_found_reply))
                 (Some "0x01") sample_state " padded").
  { eexists. repeat split; reflexivity. }
  specialize (Hspec Hy). vm_compute in Hspec. discriminate.
Qed.

(** ** initiate_match *)

Lemma adds_refl (st : state) : adds [] st st.
Proof. unfold adds. rewrite app_nil_r. auto. Qed.

Lemma adds_add_events (evs : list event) (st : state) : adds evs st (add_events evs st).
Proof. unfold adds. cbn. auto. Qed.

Lemma adds_trans (e1 e2 : list event) (a b c : state) :
  adds e1 a b -> adds e2 b c -> adds (e1 ++ e2) a c.
Proof.
  intros (Hs1 & Hf1 & Hr1 & Ht1) (Hs2 & Hf2 & Hr2 & Ht2).
  unfold adds. rewrite Hs2, Hf2, Hr2, Ht2, Hs1, Hf1, Hr1, Ht1, app_assoc. auto.
Qed.

Lemma random_choice_nonempty {A : Type} (draw : nat) (options : list A) :
  options <> [] -> exists x, random_choice draw options = Return x.
Proof.
  intros Hne. unfold random_choice.
  assert (Hlt : draw mod length options < length options).
  { apply Nat.mod_upper_bound. destruct options; [congruence|cbn; lia]. }
  destruct (lookup_lt_is_Some_2 options _ Hlt) as [x Hx].
  exists x. rewrite Hx. reflexivity.
Qed.

Section Initiate.

Context (env : environ).

Lemma send_request_nonempty (agent_id : Z) (draw : nat) (st : state) :
  entry_fees (self st) <> [] ->
  exists fee,
    send_request agent_id draw st
    = (Return tt, add_events [initiate_event (self st) agent_id fee] st).
Proof.
  intros Hne. destruct (random_choice_nonempty draw _ Hne) as [fee Hfee].
  exists fee. unfold send_request, bind, get_self, lift_outcome, emit.
  rewrite Hfee. reflexivity.
Qed.

(** Without an entry fee to draw the request is not sent. *)
Lemma send_request_empty (agent_id : Z) (draw : nat) (st : state) :
  entry_fees (self st) = [] ->
  send_request agent_id draw st = (Raise IndexError, st).
Proof.
  intros Hnil. unfold send_request, bind, get_self, lift_outcome, random_choice.
  rewrite Hnil. reflexivity.
Qed.

Lemma log_error_and_wait_adds (data : json) (st : state) :
  log_error_and_wait data st
  = (Return (Sleeps 60),
     add_events [Sleep 60] (add_events [Log ERROR (Error_initiating_match data)] st)).
Proof. reflexivity. Qed.

Lemma except_clause_adds (e : exn) (st : state) :
  except_clause e st
  = (Return (Sleeps 5),
     add_events [Sleep 5] (add_events [Log ERROR (Attempt_failed e)] st)).
Proof. reflexivity. Qed.

(** [handle_response] with its binds carried out. *)
Lemma handle_response_unfold (agent_id : Z) (rep : post_reply) (st : state) :
  handle_response env agent_id rep st
  = match rep with
    | PostRaises e => (Raise e, st)
    | PostResponse status (Raise e) => (Raise e, st)
    | PostResponse status (Return data) =>
        if (status =? 200)%Z then
          (Return (Returns data), add_events [Log INFO (Match_initiated agent_id)] st)
        else
          match py_in "error" data with
          | Raise e => (Raise e, st)
          | Return false => log_error_and_wait data st
          | Return true =>
              match py_getitem data "error" with
              | Raise e => (Raise e, st)
              | Return err =>
                  match py_in "Not found" err with
                  | Raise e => (Raise e, st)
                  | Return true =>
                      (Return (Sleeps 180),
                       add_events [Sleep 180]
                         (add_events [Log WARNING (Agent_in_cooldown agent_id)] st))
                  | Return false =>
                      match py_in "Invalid token" err with
                      | Raise e => (Raise e, st)
                      | Return invalid =>
                          match (if invalid then Return true
                                 else py_in "Authentication token required" err) with
                          | Raise e => (Raise e, st)
                          | Return true =>
                              match refresh_token env (PRIVATE_KEY env) st with
                              | (Return _, st') => log_error_and_wait data st'
                              | (Raise e, st') => (Raise e, st')
                              end
                          | Return false => log_error_and_wait data st
                          end
                      end
                  end
              end
          end
    end.
Proof.
  destruct rep as [e|status [data|e]]; try reflexivity.
  unfold handle_response, bind, lift_outcome, ret.
  destruct (status =? 200)%Z; [reflexivity|].
  destruct (py_in "error" data) as [[|]|e]; try reflexivity.
  destruct (py_getitem data "error") as [err|e]; try reflexivity.
  destruct (py_in "Not found" err) as [[|]|e]; try reflexivity.
  destruct (py_in "Invalid token" err) as [[|]|e]; try reflexivity.
  destruct (py_in "Authentication token required" err) as [[|]|e]; reflexivity.
Qed.

Local Ltac pick_case :=
  cbn;
  first
    [ left; eexists; split; [reflexivity|]; split; [reflexivity|];
      (intros; (discriminate || assumption || reflexivity))
    | right; left; eexists; split; [reflexivity|]; split; reflexivity
    | right; right; left; do 3 eexists;
      split; [reflexivity|]; split; [assumption|]; split; [reflexivity|];
      split;
      [cbn; match goal with H : assoc _ _ = _ |- _ => rewrite H; reflexivity end|];
      split;
      [cbn; match goal with H : _ = true |- _ => rewrite H; reflexivity end
      |reflexivity]
    | right; right; right; left; do 2 eexists;
      split; [reflexivity|]; split; [assumption|]; split; reflexivity
    | right; right; right; right; do 2 eexists;
      split; [reflexivity|]; split; [assumption|]; split; reflexivity ].

(** The ways the second segment of [initiate_match] ends: an exception
    before anything was done; a success; a cooldown; another error; an
    expired token, where [refresh_token] runs before the error is logged
    and the 60 seconds of sleep begin. *)
Lemma handle_response_cases (agent_id : Z) (rep : post_reply) (st : state) :
  let r := handle_response env agent_id rep st in
  (exists e,
     r = (Raise e, st) /\ auth_expired rep = false /\
     (classified rep = true -> is_TimeoutError_or_ClientError e = true))
  \/
  (exists data,
     rep = PostResponse 200 (Return data) /\ auth_expired rep = false /\
     r = (Return (Returns data), add_events [Log INFO (Match_initiated agent_id)] st))
  \/
  (exists status data err,
     rep = PostResponse status (Return data) /\ status <> 200%Z /\
     auth_expired rep = false /\
     py_getitem data "error" = Return err /\ py_in "Not found" err = Return true /\
     r = (Return (Sleeps 180),
          add_events [Sleep 180]
            (add_events [Log WARNING (Agent_in_cooldown agent_id)] st)))
  \/
  (exists status data,
     rep = PostResponse status (Return data) /\ status <> 200%Z /\
     auth_expired rep = false /\
     r = log_error_and_wait data st)
  \/
  (exists status data,
     rep = PostResponse status (Return data) /\ status <> 200%Z /\
     auth_expired rep = true /\
     r = match refresh_token env (PRIVATE_KEY env) st with
         | (Return _, st') => log_error_and_wait data st'
         | (Raise e, st') => (Raise e, st')
         end).
Proof.
  intros r. subst r. rewrite handle_response_unfold.
  unfold auth_expired, classified.
  destruct rep as [e|status [data|e]]; [pick_case| |pick_case].
  destruct (status =? 200)%Z eqn:Hst.
  { apply Z.eqb_eq in Hst. subst status. pick_case. }
  assert (Hne : status <> 200%Z) by (apply Z.eqb_neq, Hst).
  cbn [negb andb orb].
  destruct data as [|b|q|s|items|fields]; cbn [py_in].
  1-3: pick_case.
  - destruct (str_contains "error" s); pick_case.
  - destruct (existsb (json_is_str "error") items); pick_case.
  - unfold py_getitem.
    destruct (assoc "error" fields) as [err|] eqn:Eerr.
    2:{ rewrite bool_decide_eq_false_2 by (intros [? ?]; discriminate). pick_case. }
    rewrite bool_decide_eq_true_2 by eauto.
    destruct err as [|b|q|s|items|fields']; cbn [py_in].
    1-3: pick_case.
    + destruct (str_contains "Not found" s) eqn:Enf;
        [|destruct (str_contains "Invalid token" s);
          [|destruct (str_contains "Authentication token required" s)]];
        try rewrite Eerr; pick_case.
    + destruct (existsb (json_is_str "Not found") items) eqn:Enf;
        [|destruct (existsb (json_is_str "Invalid token") items);
          [|destruct (existsb (json_is_str "Authentication token required") items)]];
        try rewrite Eerr; pick_case.
    + destruct (bool_decide (is_Some (assoc "Not found" fields'))) eqn:Enf;
        [|destruct (bool_decide (is_Some (assoc "Invalid token" fields')));
          [|destruct (bool_decide (is_Some (assoc "Authentication token required" fields')))]];
        try rewrite Eerr; pick_case.
Qed.

(** [initiate_match] once its request is out. *)
Lemma initiate_match_unfold (agent_id : Z) (draw : nat) (rep : post_reply)
    (st st1 : state) :
  send_request agent_id draw st = (Return tt, st1) ->
  initiate_match env agent_id draw rep st
  = match handle_response env agent_id rep st1 with
    | (Return (Returns v), st2) => (Return v, st2)
    | (Return (Sleeps _), st2) => (Return JNull, st2)
    | (Raise e, st2) =>
        if is_TimeoutError_or_ClientError e then
          (Return JNull,
           add_events [Sleep 5] (add_events [Log ERROR (Attempt_failed e)] st2))
        else (Raise e, st2)
    end.
Proof.
  intros Hsend. unfold initiate_match, try_except.
  unfold bind at 1. unfold bind at 1. rewrite Hsend.
  destruct (handle_response env agent_id rep st1) as [[[v|secs]|e] st2];
    try reflexivity.
  destruct (is_TimeoutError_or_ClientError e); reflexivity.
Qed.

(** [initiate_match] when its request could not be made. *)
Lemma initiate_match_unsent (agent_id : Z) (draw : nat) (rep : post_reply)
    (st st1 : state) (e : exn) :
  send_request agent_id draw st = (Raise e, st1) ->
  initiate_match env agent_id draw rep st
  = if is_TimeoutError_or_ClientError e then
      (Return JNull,
       add_events [Sleep 5] (add_events [Log ERROR (Attempt_failed e)] st1))
    else (Raise e, st1).
Proof.
  intros Hsend. unfold initiate_match, try_except.
  unfold bind at 1. unfold bind at 1. rewrite Hsend.
  destruct (is_TimeoutError_or_ClientError e); reflexivity.
Qed.

(** The coroutine and the function agree: resumed three times from its
    creation, the coroutine is done with what [initiate_match] returns
    or raises, in the state [initiate_match] ends in. *)
Lemma initiate_match_by_resumptions (agent_id : Z) (draw : nat) (rep : post_reply)
    (st : state) :
  let first := resume env agent_id draw rep Created st in
  let second := resume env agent_id draw rep (fst first) (snd first) in
  let third := resume env agent_id draw rep (fst second) (snd second) in
  third = (Done (fst (initiate_match env agent_id draw rep st)),
           snd (initiate_match env agent_id draw rep st)).
Proof.
  cbn zeta. destruct (send_request agent_id draw st) as [[[]|e] st1] eqn:Hsend.
  - rewrite (initiate_match_unfold _ _ _ _ _ Hsend).
    cbn [resume]. rewrite Hsend. cbn [fst snd resume]. unfold try_except.
    destruct (handle_response env agent_id rep st1) as [[[v|secs]|e] st2];
      [reflexivity|reflexivity|].
    destruct (is_TimeoutError_or_ClientError e); reflexivity.
  - rewrite (initiate_match_unsent _ _ _ _ _ _ Hsend).
    cbn [resume]. rewrite Hsend.
    destruct (is_TimeoutError_or_ClientError e); reflexivity.
Qed.

(** C5: an answer whose status is not the success status and whose body
    is an object with the ["Not found"] marker in its ["error"] entry is
    a cooldown.  The call logs the cooldown, sleeps 180 seconds and only
    then returns [None]; as a coroutine it is suspended in
    [asyncio.sleep(180)] before it is done. *)
Theorem not_found_is_cooldown (agent_id : Z) (draw : nat) (status : Z)
    (fields : list (string * json)) (err : json) (st : state) :
  entry_fees (self st) <> [] ->
  status <> 200%Z ->
  assoc "error" fields = Some err ->
  py_in "Not found" err = Return true ->
  let rep := PostResponse status (Return (JObj fields)) in
  let r := initiate_match env agent_id draw rep st in
  fst r = Return JNull /\
  (exists fee,
     adds [initiate_event (self st) agent_id fee;
           Log WARNING (Agent_in_cooldown agent_id);
           Sleep 180] st (snd r)) /\
  (slept (trace (out (snd r))) = slept (trace (out st)) + 180)%Z /\
  (180 <= slept (trace (out (snd r))) - slept (trace (out st)))%Z /\
  (forall st1, fst (resume env agent_id draw rep AwaitPost st1) = AwaitSleep 180) /\
  (forall st2, resume env agent_id draw rep (AwaitSleep 180) st2
               = (Done (Return JNull), st2)).
Proof.
  intros Hfees Hst Herr Hnf rep r.
  assert (Hresp : forall st1,
            handle_response env agent_id rep st1
            = (Return (Sleeps 180),
               add_events [Sleep 180]
                 (add_events [Log WARNING (Agent_in_cooldown agent_id)] st1))).
  { intros st1. subst rep. rewrite handle_response_unfold.
    rewrite (proj2 (Z.eqb_neq status 200) Hst). cbn [py_in py_getitem].
    rewrite Herr, bool_decide_eq_true_2 by eauto. rewrite Hnf. reflexivity. }
  destruct (send_request_nonempty agent_id draw st Hfees) as [fee Hsend].
  assert (Hadds : adds [initiate_event (self st) agent_id fee;
                        Log WARNING (Agent_in_cooldown agent_id); Sleep 180]
                    st (snd r)).
  { subst r. rewrite (initiate_match_unfold _ _ _ _ _ Hsend), Hresp.
    unfold adds. cbn. rewrite <- !app_assoc. auto. }
  assert (Hslept : (slept (trace (out (snd r))) = slept (trace (out st)) + 180)%Z).
  { destruct Hadds as (_ & _ & _ & ->). rewrite slept_app. cbn. lia. }
  split.
  { subst r. rewrite (initiate_match_unfold _ _ _ _ _ Hsend), Hresp. reflexivity. }
  split; [exists fee; exact Hadds|].
  split; [exact Hslept|]. split; [lia|]. split.
  - intros st1. cbn [resume]. unfold try_except. rewrite Hresp. reflexivity.
  - reflexivity.
Qed.

(** The events of [refresh_token] hold one call of it and no sleep. *)
Lemma refresh_token_once (key : option string) (st : state) :
  refresh_calls (trace (out (snd (refresh_token env key st))))
  = refresh_calls (trace (out st)) + 1 /\
  slept (trace (out (snd (refresh_token env key st)))) = slept (trace (out st)).
Proof.
  destruct (refresh_token_cases env key st) as (evs & Htr & Hev & _).
  cbn zeta in Htr. rewrite Htr. unfold refresh_calls.
  rewrite count_events_app, slept_app. cbn.
  rewrite (auth_events_quiet is_RefreshToken evs), (auth_events_no_sleep evs); auto.
  - split; lia.
  - intros [] H; (discriminate || reflexivity).
Qed.

(** C2, as the code has it: an answer that tells that the token is
    invalid or required makes [initiate_match] call [refresh_token]
    once.  When that call returns, the function goes on as for any other
    error: it logs the error, sleeps 60 seconds and returns [None]. *)
Theorem expired_token_refreshes_then_waits (agent_id : Z) (draw : nat)
    (rep : post_reply) (st : state) :
  entry_fees (self st) <> [] ->
  auth_expired rep = true ->
  let refreshed :=
    refresh_token env (PRIVATE_KEY env) (snd (send_request agent_id draw st)) in
  let r := initiate_match env agent_id draw rep st in
  refresh_calls (trace (out (snd r))) = refresh_calls (trace (out st)) + 1 /\
  (fst refreshed = Return tt ->
   fst r = Return JNull /\
   (exists data,
      adds [Log ERROR (Error_initiating_match data); Sleep 60]
        (snd refreshed) (snd r)) /\
   (slept (trace (out (snd r))) = slept (trace (out st)) + 60)%Z).
Proof.
  intros Hfees Hexp refreshed r.
  destruct (send_request_nonempty agent_id draw st Hfees) as [fee Hsend].
  subst refreshed r. rewrite Hsend. cbn [snd].
  remember (add_events [initiate_event (self st) agent_id fee] st) as st1 eqn:Est1.
  assert (Hst1 : refresh_calls (trace (out st1)) = refresh_calls (trace (out st))
                 /\ slept (trace (out st1)) = slept (trace (out st))).
  { rewrite Est1. cbn. unfold refresh_calls. rewrite count_events_app, slept_app.
    cbn. split; lia. }
  destruct Hst1 as [Hcalls1 Hslept1].
  destruct (refresh_token_once (PRIVATE_KEY env) st1) as [Hcalls Hslept].
  rewrite (initiate_match_unfold _ _ _ _ _ Hsend).
  destruct (handle_response_cases agent_id rep st1)
    as [(e & _ & Hno & _)|[(data & _ & Hno & _)|[(s & d & err & _ & _ & Hno & _)
       |[(s & d & _ & _ & Hno & _)|(s & d & _ & _ & _ & ->)]]]];
    try congruence.
  destruct (refresh_token env (PRIVATE_KEY env) st1) as [[[]|e] st'];
    cbn [fst snd] in *.
  - rewrite log_error_and_wait_adds. cbn [fst snd]. split.
    + cbn. unfold refresh_calls in *. rewrite !count_events_app. cbn. lia.
    + intros _. split; [reflexivity|]. split.
      * exists d. unfold adds. cbn. rewrite <- !app_assoc. auto.
      * cbn. rewrite !slept_app. cbn. lia.
  - split; [|discriminate].
    destruct (is_TimeoutError_or_ClientError e); cbn [snd]; [|lia].
    cbn. unfold refresh_calls in *. rewrite !count_events_app. cbn. lia.
Qed.

(** C3, as the code has it: [initiate_match] returns a value on the
    answers the specification lists (a success, a transport failure or
    timeout, an error object whose ["error"] entry is absent or a
    string), provided the [refresh_token] it may call returns.  An
    exception that leaves [initiate_match] is never one of the two
    classes its [except] clause names. *)
Theorem initiate_match_returns_on_classified (agent_id : Z) (draw : nat)
    (st : state) :
  entry_fees (self st) <> [] ->
  (forall rep,
     classified rep = true ->
     (auth_expired rep = true ->
      fst (refresh_token env (PRIVATE_KEY env) (snd (send_request agent_id draw st)))
      = Return tt) ->
     exists v, fst (initiate_match env agent_id draw rep st) = Return v) /\
  (forall rep e,
     fst (initiate_match env agent_id draw rep st) = Raise e ->
     is_TimeoutError_or_ClientError e = false).
Proof.
  intros Hfees.
  destruct (send_request_nonempty agent_id draw st Hfees) as [fee Hsend].
  rewrite Hsend. cbn [snd].
  remember (add_events [initiate_event (self st) agent_id fee] st) as st1 eqn:Est1.
  split.
  - intros rep Hcl Href. rewrite (initiate_match_unfold _ _ _ _ _ Hsend).
    destruct (handle_response_cases agent_id rep st1)
      as [(e & -> & _ & Hcaught)|[(data & _ & _ & ->)|[(s & d & err & _ & _ & _ & _ & _ & ->)
         |[(s & d & _ & _ & _ & ->)|(s & d & _ & _ & Hexp & ->)]]]].
    + rewrite (Hcaught Hcl). eauto.
    + eauto.
    + eauto.
    + eauto.
    + specialize (Href Hexp).
      destruct (refresh_token env (PRIVATE_KEY env) st1) as [[u|e] st'];
        [eauto|discriminate].
  - intros rep e. rewrite (initiate_match_unfold _ _ _ _ _ Hsend).
    destruct (handle_response env agent_id rep st1) as [[[v|secs]|e'] st2];
      try discriminate.
    destruct (is_TimeoutError_or_ClientError e') eqn:Ecaught; [discriminate|].
    cbn. intros H. injection H as <-. exact Ecaught.
Qed.

End Initiate.

(** An agent in cooldown: 404 with the ["Not found"] marker. *)
Lemma not_found_is_cooldown_witness :
  fst (initiate_match (sample_environ auth_unreachable (every_agent not_found_reply))
         26641 0 not_found_reply sample_state)
  = Return JNull.
Proof.
  pose (env := sample_environ auth_unreachable (every_agent not_found_reply)).
  assert (H1 : entry_fees (self sample_state) <> []) by discriminate.
  assert (H2 : 404%Z <> 200%Z) by lia.
  assert (H3 : assoc "error" [("error", JStr "Not found")] = Some (JStr "Not found"))
    by reflexivity.
  assert (H4 : py_in "Not found" (JStr "Not found") = Return true) by reflexivity.
  exact (proj1 (not_found_is_cooldown env 26641 0 404 _ _ sample_state H1 H2 H3 H4)).
Defined.

(** C4, in the words of the specification, fails: a 201 answer is not a
    success; the call logs an error, sleeps and returns [None]. *)
Lemma status_201_is_not_success :
  ~ spec_success_on_2xx
      (sample_environ auth_unreachable (every_agent created_reply))
      26641 0 201 (JObj [("id", JNum 1)]) sample_state.
Proof.
  intros Hspec. specialize (Hspec ltac:(lia)).
  vm_compute in Hspec. discriminate.
Qed.

(** The token is refreshed once when the server says it is invalid. *)
Lemma expired_token_refreshes_then_waits_witness :
  fst (initiate_match
         (sample_environ (auth_grants "new-token") (every_agent invalid_token_reply))
         26641 0 invalid_token_reply sample_state)
  = Return JNull.
Proof.
  pose (env := sample_environ (auth_grants "new-token") (every_agent invalid_token_reply)).
  assert (H1 : entry_fees (self sample_state) <> []) by discriminate.
  assert (H2 : auth_expired invalid_token_reply = true) by reflexivity.
  destruct (expired_token_refreshes_then_waits env 26641 0 invalid_token_reply
              sample_state H1 H2) as [_ Hret].
  apply Hret. reflexivity.
Defined.

(** C2, in the words of the specification, fails: after the refresh the
    call sleeps 60 seconds before it returns. *)
Lemma refresh_is_followed_by_sleep :
  ~ spec_refresh_without_delay
      (sample_environ (auth_grants "new-token") (every_agent invalid_token_reply))
      26641 0 invalid_token_reply sample_state.
Proof.
  intros Hspec. specialize (Hspec eq_refl).
  vm_compute in Hspec. discriminate.
Qed.

(** A cooldown answer is returned as a value. *)
Lemma initiate_match_returns_on_classified_witness :
  exists v,
    fst (initiate_match (sample_environ auth_unreachable (every_agent not_found_reply))
           26641 0 not_found_reply sample_state)
    = Return v.
Proof.
  pose (env := sample_environ auth_unreachable (every_agent not_found_reply)).
  assert (H1 : entry_fees (self sample_state) <> []) by discriminate.
  destruct (initiate_match_returns_on_classified env 26641 0 sample_state H1)
    as [Hret _].
  apply (Hret not_found_reply).
  - reflexivity.
  - intros H. vm_compute in H. discriminate.
Defined.

(** C3, in the words of the specification, fails: on an error body whose
    ["error"] entry is [null] the test ["Not found" in data["error"]]
    raises a [TypeError], which the [except] clause does not catch. *)
Lemma null_error_raises_type_error :
  ~ spec_initiate_returns
      (sample_environ auth_unreachable (every_agent null_error_reply))
      26641 0 null_error_reply sample_state.
Proof.
  intros [v Hv]. vm_compute in Hv. discriminate.
Qed.

(** ** Effects of one resumption *)

Lemma same_roster_refl (g : GameSession) : same_roster g g.
Proof. unfold same_roster. auto. Qed.

Lemma same_roster_trans (g1 g2 g3 : GameSession) :
  same_roster g1 g2 -> same_roster g2 g3 -> same_roster g1 g3.
Proof. unfold same_roster. intros (?&?&?) (?&?&?). repeat split; congruence. Qed.

Lemma effect_refl (p : event -> bool) (st : state) : effect p 0 st st.
Proof.
  split; [apply same_roster_refl|]. split; [auto|].
  exists []. rewrite app_nil_r. auto.
Qed.

Lemma effect_trans (p : event -> bool) (n m : nat) (a b c : state) :
  effect p n a b -> effect p m b c -> effect p (n + m) a c.
Proof.
  intros (Hr1 & Hh1 & e1 & Ht1 & Hc1) (Hr2 & Hh2 & e2 & Ht2 & Hc2).
  split; [eapply same_roster_trans; eauto|]. split; [auto|].
  exists (e1 ++ e2). rewrite Ht2, Ht1, app_assoc, count_events_app. auto.
Qed.

Lemma effect_add_events (p : event -> bool) (evs : list event) (st : state) :
  effect p (count_events p evs) st (add_events evs st).
Proof.
  split; [apply same_roster_refl|]. split; [auto|]. exists evs. auto.
Qed.

Lemma generate_headers_match (g : GameSession) :
  header_matches_token (set_headers g (_generate_headers g)).
Proof.
  unfold header_matches_token, set_headers, _generate_headers. cbn [headers token].
  cbn [list_to_map foldr]. unfold uncurry, curry. cbn [fst snd].
  rewrite lookup_insert_ne by discriminate.
  rewrite lookup_insert_eq. reflexivity.
Qed.

Section Effects.

Context (env : environ).

Lemma refresh_token_effect (p : event -> bool) (q : Z -> nat) (rk : nat)
    (key : option string) (st : state) :
  selects p q rk ->
  effect p rk st (snd (refresh_token env key st)).
Proof.
  intros (Hquiet & _ & Hrk).
  destruct (refresh_token_cases env key st) as (evs & Htr & Hev & Hcases).
  cbn zeta in Htr, Hcases.
  assert (Hself : self (snd (refresh_token env key st)) = self st \/
                  exists tok, self (snd (refresh_token env key st))
                              = set_headers (set_token (self st) tok)
                                  (_generate_headers (set_token (self st) tok))).
  { destruct Hcases as [(e & _ & H & _)|[(_ & _ & H & _)|(tok & _ & _ & H & _)]]; eauto. }
  repeat split.
  - destruct Hself as [->|[tok ->]]; reflexivity.
  - destruct Hself as [->|[tok ->]]; reflexivity.
  - destruct Hself as [->|[tok ->]]; reflexivity.
  - destruct Hself as [->|[tok ->]]; [auto|].
    intros _. apply generate_headers_match.
  - exists (RefreshToken key :: evs). split; [exact Htr|].
    cbn. rewrite (Hrk key), (auth_events_quiet p evs); [lia| |exact Hev].
    intros e He. apply Hquiet. rewrite He. reflexivity.
Qed.

Lemma effect_quiet (p : event -> bool) (q : Z -> nat) (rk : nat)
    (evs : list event) (st : state) :
  selects p q rk ->
  forallb (fun e => auth_event e || is_Sleep e) evs = true ->
  effect p 0 st (add_events evs st).
Proof.
  intros (Hquiet & _) Hevs.
  replace 0 with (count_events p evs); [apply effect_add_events|].
  induction evs as [|e evs IH]; [reflexivity|].
  cbn in Hevs. apply andb_prop in Hevs as [He Hevs].
  cbn. rewrite (Hquiet e He), (IH Hevs). reflexivity.
Qed.

Lemma log_error_and_wait_effect (p : event -> bool) (q : Z -> nat) (rk : nat)
    (data : json) (st : state) :
  selects p q rk ->
  effect p 0 st (snd (log_error_and_wait data st)).
Proof.
  intros Hp. rewrite log_error_and_wait_adds. cbn [snd].
  apply (effect_trans p 0 0 _ (add_events [Log ERROR (Error_initiating_match data)] st));
    apply (effect_quiet p q rk); auto.
Qed.

Lemma handle_response_effect (p : event -> bool) (q : Z -> nat) (rk : nat)
    (agent_id : Z) (rep : post_reply) (st : state) :
  selects p q rk ->
  effect p (if auth_expired rep then rk else 0) st
    (snd (handle_response env agent_id rep st)).
Proof.
  intros Hp.
  destruct (handle_response_cases env agent_id rep st)
    as [(e & -> & -> & _)|[(data & _ & -> & ->)|[(s & d & err & _ & _ & -> & _ & _ & ->)
       |[(s & d & _ & _ & -> & ->)|(s & d & _ & _ & -> & ->)]]]]; cbn [snd].
  - apply effect_refl.
  - apply (effect_quiet p q rk); auto.
  - apply (effect_trans p 0 0 _ (add_events [Log WARNING (Agent_in_cooldown agent_id)] st));
      apply (effect_quiet p q rk); auto.
  - apply (log_error_and_wait_effect p q rk); auto.
  - pose proof (refresh_token_effect p q rk (PRIVATE_KEY env) st Hp) as Href.
    destruct (refresh_token env (PRIVATE_KEY env) st) as [[u|e] st']; cbn [snd] in *.
    + replace rk with (rk + 0) by lia.
      apply (effect_trans p rk 0 _ st'); [exact Href|].
      apply (log_error_and_wait_effect p q rk); auto.
    + exact Href.
Qed.

(** One resumption of a task pays what the task owed for the segment it
    ran, and leaves less to run. *)
Lemma resume_effect (p : event -> bool) (q : Z -> nat) (rk : nat)
    (cyc i : nat) (agent_id : Z) (c : coroutine) (st : state) :
  selects p q rk ->
  entry_fees (self st) <> [] ->
  let res := resume env agent_id (fee_draw env cyc i) (initiate_net env cyc i) c st in
  exists n,
    effect p n st (snd res) /\
    n + owed q rk env cyc i (agent_id, fst res) = owed q rk env cyc i (agent_id, c) /\
    remaining (fst res) <= remaining c /\
    (is_done c = false -> remaining (fst res) < remaining c).
Proof.
  intros Hp Hfees res. subst res. destruct c as [| |secs|r].
  - destruct (send_request_nonempty agent_id (fee_draw env cyc i) st Hfees)
      as [fee Hsend].
    cbn [resume]. rewrite Hsend. cbn [fst snd].
    exists (q agent_id). split; [|cbn; repeat split; lia].
    destruct Hp as (_ & Hq & _).
    replace (q agent_id)
      with (count_events p [initiate_event (self st) agent_id fee]);
      [apply effect_add_events|].
    cbn. unfold initiate_event. rewrite Hq. cbn. lia.
  - cbn [resume]. unfold try_except.
    pose proof (handle_response_effect p q rk agent_id (initiate_net env cyc i) st Hp)
      as Heff.
    exists (if auth_expired (initiate_net env cyc i) then rk else 0).
    destruct (handle_response env agent_id (initiate_net env cyc i) st)
      as [[[v|secs]|e] st2]; cbn [fst snd settle] in *.
    + split; [exact Heff|]. cbn. repeat split; lia.
    + split; [exact Heff|]. cbn. repeat split; lia.
    + destruct (is_TimeoutError_or_ClientError e).
      * rewrite except_clause_adds. cbn [fst snd settle].
        split; [|cbn; repeat split; lia].
        replace (if auth_expired (initiate_net env cyc i) then rk else 0)
          with ((if auth_expired (initiate_net env cyc i) then rk else 0) + (0 + 0))
          by lia.
        apply (effect_trans p _ _ _ st2); [exact Heff|].
        apply (effect_trans p 0 0 _ (add_events [Log ERROR (Attempt_failed e)] st2));
          apply (effect_quiet p q rk); auto.
      * cbn [fst snd settle]. split; [exact Heff|]. cbn. repeat split; lia.
  - cbn. exists 0. split; [apply effect_refl|]. repeat split; lia.
  - cbn. exists 0. split; [apply effect_refl|]. repeat split; (lia || discriminate).
Qed.

End Effects.

(** ** The runner *)

Lemma weigh_insert (f : nat -> Z * coroutine -> nat) (k i : nat)
    (tasks : list (Z * coroutine)) (t t' : Z * coroutine) :
  tasks !! i = Some t ->
  weigh f k (<[i := t']> tasks) + f (k + i) t = weigh f k tasks + f (k + i) t'.
Proof.
  revert k i. induction tasks as [|x tasks IH]; intros k i Hi; [discriminate|].
  destruct i as [|i].
  - injection Hi as ->. cbn. rewrite Nat.add_0_r. lia.
  - change (<[S i := t']> (x :: tasks)) with (x :: <[i := t']> tasks).
    change ((x :: tasks) !! S i) with (tasks !! i) in Hi.
    specialize (IH (S k) i Hi). cbn [weigh].
    rewrite <- Nat.add_succ_comm. lia.
Qed.

Lemma weigh_shift (f : nat -> Z * coroutine -> nat) (k : nat)
    (tasks : list (Z * coroutine)) :
  (forall i j t, f i t = f j t) -> weigh f k tasks = weigh f 0 tasks.
Proof.
  intros Hf. revert k. induction tasks as [|t tasks IH]; intros k; [reflexivity|].
  cbn. rewrite (IH (S k)), (IH 1), (Hf k 0). reflexivity.
Qed.

Lemma owed_all_done (q : Z -> nat) (rk : nat) (env : environ) (cyc k : nat)
    (tasks : list (Z * coroutine)) :
  all_done tasks = true -> weigh (owed q rk env cyc) k tasks = 0.
Proof.
  revert k. induction tasks as [|[a c] tasks IH]; intros k; [reflexivity|].
  cbn. intros [Hc Hrest]%andb_prop. rewrite (IH _ Hrest).
  destruct c; (discriminate || reflexivity).
Qed.



Lemma selects_refresh : selects is_RefreshToken (fun _ => 0) 1.
Proof.
  split; [|split].
  - intros [] H; (discriminate || reflexivity).
  - intros url h payload. cbn. reflexivity.
  - intros key. reflexivity.
Qed.


Lemma report_quiet (p : event -> bool) (q : Z -> nat) (rk : nat)
    (pairs : list (Z * coroutine)) :
  selects p q rk ->
  count_events p (concat (map (fun ar => report (fst ar) (snd ar)) pairs)) = 0.
Proof.
  intros (Hquiet & _). induction pairs as [|[a c] pairs IH]; [reflexivity|].
  cbn. rewrite count_events_app, IH.
  destruct c as [| | |[v|e]]; cbn; try reflexivity.
  - destruct (json_truthy v); cbn; [|reflexivity].
    rewrite Hquiet; reflexivity.
  - rewrite Hquiet; reflexivity.
Qed.

Lemma map_fst_insert (tasks : list (Z * coroutine)) (i : nat) (a : Z) (c c' : coroutine) :
  tasks !! i = Some (a, c) ->
  map fst (<[i := (a, c')]> tasks) = map fst tasks.
Proof.
  revert i. induction tasks as [|x tasks IH]; intros i Hi; [discriminate|].
  destruct i as [|i].
  - injection Hi as ->. reflexivity.
  - change (<[S i := (a, c')]> (x :: tasks)) with (x :: <[i := (a, c')]> tasks).
    change ((x :: tasks) !! S i) with (tasks !! i) in Hi.
    cbn [map]. rewrite (IH i Hi). reflexivity.
Qed.

Section Cycle.

Context (env : environ).

(** One step of the runner inside [gather]: either every task is done,
    [gather] returns and the runner goes to sleep for 10 seconds, or
    one task is resumed, which touches no other task. *)
Lemma step_gathering (p : event -> bool) (q : Z -> nat) (rk : nat)
    (pick : nat) (r : runner) (tasks : list (Z * coroutine)) :
  selects p q rk ->
  at_phase r = Gathering tasks ->
  entry_fees (self (now r)) <> [] ->
  let r1 := step env pick r in
  same_roster (self (now r)) (self (now r1)) /\
  (header_matches_token (self (now r)) -> header_matches_token (self (now r1))) /\
  cycle r1 = cycle r /\
  ((all_done tasks = true /\ at_phase r1 = CycleSleep /\
    count_events p (trace (out (now r1))) = count_events p (trace (out (now r))) /\
    exists lines,
      trace (out (now r1))
      = trace (out (now r)) ++ lines ++ [Log INFO Completed_one_full_cycle; Sleep 10])
   \/
   (all_done tasks = false /\
    exists tasks1,
      at_phase r1 = Gathering tasks1 /\
      map fst tasks1 = map fst tasks /\
      count_events p (trace (out (now r1))) + weigh (owed q rk env (cycle r)) 0 tasks1
      = count_events p (trace (out (now r))) + weigh (owed q rk env (cycle r)) 0 tasks /\
      work tasks1 <= work tasks /\
      (forall a c, tasks !! pick = Some (a, c) -> is_done c = false ->
                   work tasks1 < work tasks) /\
      (forall j, j <> pick -> tasks1 !! j = tasks !! j))).
Proof.
  intros Hp Hphase Hfees r1. subst r1. unfold step. rewrite Hphase.
  fold (all_done tasks). destruct (all_done tasks) eqn:Hdone.
  - cbn [now at_phase cycle]. split; [apply same_roster_refl|]. split; [auto|].
    split; [reflexivity|]. left. split; [reflexivity|]. split; [reflexivity|].
    split; [|eexists; reflexivity].
    cbn. rewrite !count_events_app, (report_quiet p q rk _ Hp).
    destruct Hp as (Hquiet & _). cbn. rewrite !Hquiet by reflexivity. lia.
  - destruct (tasks !! pick) as [[a c]|] eqn:Hpick.
    + destruct (resume_effect env p q rk (cycle r) pick a c (now r) Hp Hfees)
        as (n & (Hroster & Hheader & evs & Htr & Hcount) & Hbal & Hle & Hlt).
      destruct (resume env a (fee_draw env (cycle r) pick)
                  (initiate_net env (cycle r) pick) c (now r)) as [c' st'].
      cbn [fst snd] in *. cbn [now at_phase cycle].
      split; [exact Hroster|]. split; [exact Hheader|]. split; [reflexivity|].
      right. split; [reflexivity|]. exists (<[pick := (a, c')]> tasks).
      split; [reflexivity|]. split; [apply (map_fst_insert _ _ _ c), Hpick|].
      pose proof (weigh_insert (owed q rk env (cycle r)) 0 pick tasks (a, c) (a, c') Hpick)
        as Hw.
      pose proof (weigh_insert (fun _ t => remaining (snd t)) 0 pick tasks
                    (a, c) (a, c') Hpick) as Hwork.
      cbn [Nat.add snd] in Hw, Hwork. unfold work.
      split; [rewrite Htr, count_events_app, Hcount; lia|].
      split; [lia|]. split.
      * intros a0 c0 H0 Hd. injection H0 as <- <-. specialize (Hlt Hd). lia.
      * intros j Hj. apply list_lookup_insert_ne. auto.
    + split; [apply same_roster_refl|]. split; [auto|]. split; [reflexivity|].
      right. split; [reflexivity|]. exists tasks. repeat split; auto.
      intros a c H. discriminate.
Qed.

Lemma step_top (pick : nat) (r : runner) :
  at_phase r = LoopTop ->
  step env pick r
  = {| now := now r;
       at_phase := Gathering (map (fun a => (a, Created)) (agent_ids (self (now r))));
       cycle := cycle r |}.
Proof. intros H. unfold step. rewrite H. reflexivity. Qed.

Lemma step_wake (pick : nat) (r : runner) :
  at_phase r = CycleSleep ->
  step env pick r = {| now := now r; at_phase := LoopTop; cycle := S (cycle r) |}.
Proof. intros H. unfold step. rewrite H. reflexivity. Qed.

(** What every step keeps: the roster and the entry fees, the agreement
    of header and token; the cycle count never goes down. *)
Lemma step_invariant (pick : nat) (r : runner) :
  entry_fees (self (now r)) <> [] ->
  same_roster (self (now r)) (self (now (step env pick r))) /\
  (header_matches_token (self (now r)) ->
   header_matches_token (self (now (step env pick r)))) /\
  cycle r <= cycle (step env pick r).
Proof.
  intros Hfees. destruct (at_phase r) as [|tasks|] eqn:Hphase.
  - rewrite (step_top pick r Hphase). cbn. split; [apply same_roster_refl|]. auto.
  - destruct (step_gathering is_RefreshToken _ _ pick r tasks selects_refresh Hphase Hfees)
      as (Hroster & Hheader & Hcycle & _).
    cbn zeta in Hcycle. split; [exact Hroster|]. split; [exact Hheader|]. lia.
  - rewrite (step_wake pick r Hphase). cbn. split; [apply same_roster_refl|]. auto.
Qed.

Lemma run_invariant (schedule : list nat) (r : runner) :
  entry_fees (self (now r)) <> [] ->
  same_roster (self (now r)) (self (now (run env schedule r))) /\
  (header_matches_token (self (now r)) ->
   header_matches_token (self (now (run env schedule r)))) /\
  cycle r <= cycle (run env schedule r).
Proof.
  revert r. induction schedule as [|pick rest IH]; intros r Hfees.
  - cbn. split; [apply same_roster_refl|]. auto.
  - cbn [run]. destruct (step_invariant pick r Hfees) as (Hroster & Hheader & Hcycle).
    assert (Hfees' : entry_fees (self (now (step env pick r))) <> []).
    { destruct Hroster as (_ & -> & _). exact Hfees. }
    destruct (IH _ Hfees') as (Hroster' & Hheader' & Hcycle').
    split; [eapply same_roster_trans; eauto|]. split; [auto|lia].
Qed.

(** Once the runner sleeps at the end of a cycle, any further step
    belongs to a later cycle. *)
Lemma run_after_cycle_sleep (schedule : list nat) (r : runner) :
  at_phase r = CycleSleep ->
  entry_fees (self (now r)) <> [] ->
  cycle (run env schedule r) = cycle r ->
  schedule = [].
Proof.
  intros Hphase Hfees Hcycle. destruct schedule as [|pick rest]; [reflexivity|].
  exfalso. cbn [run] in Hcycle. rewrite (step_wake pick r Hphase) in Hcycle.
  match type of Hcycle with cycle (run env rest ?r1) = _ =>
    destruct (run_invariant rest r1 Hfees) as (_ & _ & Hmono) end.
  cbn in Hmono. lia.
Qed.

(** Over a completed [gather] the selected events are those the tasks
    owed when it began. *)
Lemma gather_balance (p : event -> bool) (q : Z -> nat) (rk : nat)
    (schedule : list nat) (r : runner) (tasks : list (Z * coroutine)) :
  selects p q rk ->
  at_phase r = Gathering tasks ->
  entry_fees (self (now r)) <> [] ->
  at_phase (run env schedule r) = CycleSleep ->
  cycle (run env schedule r) = cycle r ->
  count_events p (trace (out (now (run env schedule r))))
  = count_events p (trace (out (now r))) + weigh (owed q rk env (cycle r)) 0 tasks.
Proof.
  intros Hp. revert r tasks.
  induction schedule as [|pick rest IH]; intros r tasks Hphase Hfees Hend Hcycle.
  - cbn in Hend. congruence.
  - cbn [run] in *.
    destruct (step_gathering p q rk pick r tasks Hp Hphase Hfees)
      as (Hroster & _ & Hcyc1 & Hcases).
    cbn zeta in *.
    assert (Hfees1 : entry_fees (self (now (step env pick r))) <> []).
    { destruct Hroster as (_ & -> & _). exact Hfees. }
    destruct Hcases as [(Hdone & Hph1 & Hcount & _)|(Hdone & tasks1 & Hph1 & _ & Hbal & _)].
    + rewrite <- Hcyc1 in Hcycle.
      rewrite (run_after_cycle_sleep rest _ Hph1 Hfees1 Hcycle). cbn [run].
      rewrite Hcount, (owed_all_done q rk env (cycle r) 0 tasks Hdone). lia.
    + rewrite <- Hcyc1 in Hcycle.
      rewrite (IH _ tasks1 Hph1 Hfees1 Hend Hcycle), Hcyc1. lia.
Qed.

(** The same from the top of the loop: every task is created owing its
    request and, when its answer will call for it, its refresh. *)
Lemma cycle_balance (p : event -> bool) (q : Z -> nat) (rk : nat)
    (schedule : list nat) (r : runner) :
  selects p q rk ->
  at_phase r = LoopTop ->
  entry_fees (self (now r)) <> [] ->
  at_phase (run env schedule r) = CycleSleep ->
  cycle (run env schedule r) = cycle r ->
  count_events p (trace (out (now (run env schedule r))))
  = count_events p (trace (out (now r)))
    + weigh (owed q rk env (cycle r)) 0
        (map (fun a => (a, Created)) (agent_ids (self (now r)))).
Proof.
  intros Hp Hphase Hfees Hend Hcycle.
  destruct schedule as [|pick rest]; [cbn in Hend; congruence|].
  cbn [run] in *. rewrite (step_top pick r Hphase) in *.
  match goal with |- context [run env rest ?r1] =>
    exact (gather_balance p q rk rest r1 _ Hp eq_refl Hfees Hend Hcycle) end.
Qed.





(** C1, as the code has it: there is no guard on [refresh_token].  In a
    completed cycle, under any schedule, the number of calls of
    [refresh_token] is the number of agents whose answer said that the
    token is invalid or required: each of them refreshes on its own. *)
Theorem one_refresh_per_expired_agent (schedule : list nat) (r : runner) :
  at_phase r = LoopTop ->
  entry_fees (self (now r)) <> [] ->
  at_phase (run env schedule r) = CycleSleep ->
  cycle (run env schedule r) = cycle r ->
  refresh_calls (trace (out (now (run env schedule r))))
  = refresh_calls (trace (out (now r)))
    + expired_agents env (cycle r) (agent_ids (self (now r))).
Proof.
  intros Hphase Hfees Hend Hcycle.
  exact (cycle_balance is_RefreshToken _ _ schedule r selects_refresh
           Hphase Hfees Hend Hcycle).
Qed.


(** C10: the [Authorization] header is ["Bearer "] followed by the token
    of the session after construction, after every call of
    [refresh_token] and all along the run of the loop; a refresh that
    obtained a token sets the token, the header and the file to it; the
    request an [initiate_match] sends carries the header of the token
    the session has at that moment. *)
Theorem authorization_header_follows_token :
  (forall tok uid, header_matches_token (GameSession_init tok uid)) /\
  (forall key st,
     header_matches_token (self st) ->
     header_matches_token (self (snd (refresh_token env key st)))) /\
  (forall key st tok,
     authentication_yields env key st tok ->
     token (self (snd (refresh_token env key st))) = tok /\
     headers (self (snd (refresh_token env key st))) !! "Authorization"
     = Some ("Bearer " +:+ tok) /\
     fs (out (snd (refresh_token env key st)))
     = Some (write_translate (linesep env) tok)) /\
  (forall schedule r,
     entry_fees (self (now r)) <> [] ->
     header_matches_token (self (now r)) ->
     header_matches_token (self (now (run env schedule r)))) /\
  (forall agent_id draw st,
     entry_fees (self st) <> [] ->
     header_matches_token (self st) ->
     exists url h payload,
       trace (out (snd (send_request agent_id draw st)))
       = trace (out st) ++ [Initiate url h payload] /\
       agentId payload = agent_id /\
       h !! "Authorization" = Some ("Bearer " +:+ token (self st))).
Proof.
  split; [|split; [|split; [|split]]].
  - intros tok uid. unfold GameSession_init, header_matches_token. cbn [headers token].
    exact (generate_headers_match
             {| token := tok; user_id := uid; headers := ∅; agent_ids := [];
                entry_fees := []; timeout := 0 |}).
  - intros key st.
    destruct (refresh_token_effect env is_RefreshToken _ _ key st selects_refresh)
      as (_ & Hheader & _). exact Hheader.
  - intros key st tok Hy.
    destruct (refresh_token_cases env key st)
      as (evs & _ & _ & [(e & _ & _ & _ & Hraise)|[(Hf & _)|(tok' & Hy' & _ & Hself & Hfs & _)]]).
    + exfalso. apply (authentication_returns_not_raises env key st e); eauto.
    + exfalso. exact (authentication_fails_not_yields env key st tok Hf Hy).
    + rewrite (authentication_yields_functional env key st tok tok' Hy Hy').
      cbn zeta in Hself, Hfs. rewrite Hself, Hfs. split; [reflexivity|]. split; [|reflexivity].
      apply (generate_headers_match (set_token (self st) tok')).
  - intros schedule r Hfees. apply (run_invariant schedule r Hfees).
  - intros agent_id draw st Hfees Hheader.
    destruct (send_request_nonempty agent_id draw st Hfees) as [fee ->].
    do 3 eexists. split; [reflexivity|]. split; [reflexivity|]. exact Hheader.
Qed.

End Cycle.

(** Two agents of the roster are told in the same cycle that the token
    is invalid: [refresh_token] is called twice. *)
Lemma one_refresh_per_expired_agent_witness :
  refresh_calls
    (trace (out (now (run (sample_environ (auth_grants "new-token") two_agents_expired)
                        sample_schedule sample_runner))))
  = 2.
Proof.
  pose (env := sample_environ (auth_grants "new-token") two_agents_expired).
  assert (H1 : at_phase sample_runner = LoopTop) by reflexivity.
  assert (H2 : entry_fees (self (now sample_runner)) <> []) by discriminate.
  assert (H3 : at_phase (run env sample_schedule sample_runner) = CycleSleep)
    by (vm_compute; reflexivity).
  assert (H4 : cycle (run env sample_schedule sample_runner) = cycle sample_runner)
    by (vm_compute; reflexivity).
  exact (one_refresh_per_expired_agent env sample_schedule sample_runner H1 H2 H3 H4).
Defined.

(** C1, in the words of the specification, fails: when two agents are
    told in the same cycle that the token is invalid, the cycle holds
    two calls of [refresh_token], not one. *)
Lemma two_agents_refresh_twice :
  ~ spec_single_refresh
      (sample_environ (auth_grants "new-token") two_agents_expired)
      sample_schedule sample_runner.
Proof.
  intros Hspec.
  assert (H : refresh_calls
                (trace (out (now (run (sample_environ (auth_grants "new-token")
                                         two_agents_expired)
                                    sample_schedule sample_runner))))
              = refresh_calls (trace (out (now sample_runner))) + 1).
  { apply Hspec.
    - reflexivity.
    - vm_compute. reflexivity.
    - vm_compute. reflexivity.
    - vm_compute. lia. }
  vm_compute in H. discriminate.
Qed.


(** The header of the sample session after a refresh that obtained a
    token. *)
Lemma authorization_header_follows_token_witness :
  headers (self (snd (refresh_token
                        (sample_environ (auth_grants "new-token")
                           (every_agent invalid_token_reply))
                        (Some "0x01") sample_state))) !! "Authorization"
  = Some "Bearer new-token".
Proof.
  pose (env := sample_environ (auth_grants "new-token") (every_agent invalid_token_reply)).
  destruct (authorization_header_follows_token env) as (_ & _ & Hrefresh & _).
  assert (Hy : authentication_yields env (Some "0x01") sample_state "new-token").
  { eexists. repeat split; reflexivity. }
  exact (proj1 (proj2 (Hrefresh (Some "0x01") sample_state "new-token" Hy))).
Defined.

(** The runner [main] hands over is at the top of its loop, has entry
    fees to draw from and a header that agrees with its token. *)
Lemma main_runner_ready (env : environ) (w : world) (r : runner) :
  fst (main env w) = Return (Some r) ->
  at_phase r = LoopTop /\
  cycle r = 0 /\
  entry_fees (self (now r)) <> [] /\
  header_matches_token (self (now r)).
Proof.
  unfold main. unfold bind at 1.
  destruct (main_token env w) as [[tok|e] w1]; [|discriminate].
  destruct (negb (truthy tok)).
  - unfold bind, log, emit, ret. cbn. discriminate.
  - cbn. intros H. injection H as <-. cbn.
    split; [reflexivity|]. split; [reflexivity|]. split; [discriminate|].
    exact (generate_headers_match
             {| token := default "" tok; user_id := 17267; headers := ∅;
                agent_ids := []; entry_fees := []; timeout := 0 |}).
Qed.

(** * Further properties *)

(** ** The authentication flow *)

Lemma forallb_weaken (p q : event -> bool) (t : list event) :
  (forall e, p e = true -> q e = true) ->
  forallb p t = true -> forallb q t = true.
Proof.
  intros Hpq. induction t as [|e t IH]; cbn; [reflexivity|].
  intros [He Ht]%andb_prop. rewrite (Hpq e He), (IH Ht). reflexivity.
Qed.

Lemma count_events_none (p q : event -> bool) (t : list event) :
  (forall e, q e = true -> p e = false) ->
  forallb q t = true -> count_events p t = 0.
Proof.
  intros Hp. induction t as [|e t IH]; cbn; [reflexivity|].
  intros [He Ht]%andb_prop. rewrite (Hp e He), (IH Ht). reflexivity.
Qed.

Lemma nonce_event_verify (e : event) : nonce_event e = true -> verify_event e = true.
Proof. destruct e as [[] []| | | | | |]; intros H; (discriminate || reflexivity). Qed.

Lemma verify_event_task (e : event) : verify_event e = true -> task_event e = true.
Proof. destruct e as [[] []| | | | | |]; intros H; (discriminate || reflexivity). Qed.

Section Verify.

Context (env : environ).

(** The loop of [fetch_nonce] sends one request per pass, writes log
    lines and does nothing else. *)
Lemma fetch_nonce_loop_events (max_retries : nat) (attempts : list nat) (w : world) :
  let r := fetch_nonce_loop env max_retries attempts w in
  fs (snd r) = fs w /\
  exists evs,
    trace (snd r) = trace w ++ evs /\
    forallb nonce_event evs = true /\
    count_events is_HttpGet evs <= length attempts /\
    requests_made (snd r) = requests_made w + count_events is_HttpGet evs.
Proof.
  cbn zeta. revert w. induction attempts as [|a rest IH]; intros w.
  - cbn. split; [reflexivity|]. exists []. rewrite app_nil_r. cbn. auto with lia.
  - rewrite fetch_nonce_loop_cons. cbn zeta.
    destruct (attempt (auth_net env (requests_made w))) as [v|e].
    { cbn. split; [reflexivity|]. eexists. split; [reflexivity|]. cbn.
      split; [reflexivity|]. split; lia. }
    destruct (is_RequestException e).
    2:{ cbn. split; [reflexivity|]. eexists. split; [reflexivity|]. cbn.
        split; [reflexivity|]. split; lia. }
    destruct (a =? max_retries - 1)%nat.
    { cbn. split; [reflexivity|]. eexists. rewrite <- app_assoc.
      split; [reflexivity|]. cbn. split; [reflexivity|]. split; lia. }
    match goal with |- context [fetch_nonce_loop env max_retries rest ?w2] =>
      destruct (IH w2) as (Hfs & evs & Htr & Hev & Hlen & Hreq) end.
    split; [rewrite Hfs; reflexivity|].
    eexists. rewrite Htr. cbn [trace world_trace after_request].
    rewrite <- !app_assoc. split; [reflexivity|].
    cbn. split; [exact Hev|]. split; [lia|]. rewrite Hreq. cbn. lia.
Qed.

(** The first attempt that is not retried decides the call. *)
Lemma fetch_nonce_first_unretried (w : world) (n : nat) :
  let reply k := auth_net env (requests_made w + k) in
  n < 3 ->
  (forall k, k < n -> attempt_fails (reply k) = true) ->
  attempt_fails (reply n) = false ->
  fst (fetch_nonce env w) = attempt (reply n) /\
  requests_made (snd (fetch_nonce env w)) = requests_made w + S n.
Proof.
  intros reply Hn Hlt Hok. subst reply. cbn beta in *.
  destruct (fetch_nonce_cases env w)
    as (n0 & evs & Hn0 & Hpre & Hreq & _ & _ & _ & _ & Hres).
  cbn zeta in Hpre, Hres.
  destruct (Nat.lt_trichotomy n n0) as [Hlo|[->|Hhi]].
  - rewrite (Hpre n Hlo) in Hok. discriminate.
  - destruct Hres as [[_ Hr]|[Hf _]]; [auto|congruence].
  - pose proof (Hlt n0 Hhi) as Hf.
    destruct Hres as [[Hok0 _]|[_ [-> _]]]; [congruence|lia].
Qed.

(** A nonce that came back was the answer to an attempt that followed
    retried attempts only. *)
Lemma fetch_nonce_returned (w : world) (nonce : string) :
  let reply k := auth_net env (requests_made w + k) in
  fst (fetch_nonce env w) = Return (Some nonce) ->
  exists n,
    n < 3 /\
    (forall k, k < n -> attempt_fails (reply k) = true) /\
    attempt (reply n) = Return (Some nonce) /\
    requests_made (snd (fetch_nonce env w)) = requests_made w + S n.
Proof.
  intros reply Hret. subst reply. cbn beta in *.
  destruct (fetch_nonce_cases env w)
    as (n0 & evs & Hn0 & Hpre & Hreq & _ & _ & _ & _ & Hres).
  cbn zeta in Hpre, Hres, Hreq.
  exists n0. destruct Hres as [[_ Hr]|[_ [_ Hr]]]; [|congruence].
  repeat split; auto. congruence.
Qed.

(** X1: one run of the authentication flow sends between one and three
    requests for a nonce and at most one verification; the verification
    is sent exactly when a non-empty nonce came back.  Besides these
    requests the flow only writes its own error lines: it never sleeps
    and never touches the token file. *)
Theorem verify_dapp_auth_requests (auth : FractionAIAuth) (w : world) :
  let r := verify_dapp_auth env auth w in
  exists evs,
    trace (snd r) = trace w ++ evs /\
    forallb verify_event evs = true /\
    1 <= count_events is_HttpGet evs <= 3 /\
    count_events is_HttpPost evs <= 1 /\
    (count_events is_HttpPost evs = 1 <->
     exists nonce, fst (fetch_nonce env w) = Return (Some nonce) /\ nonce <> "") /\
    requests_made (snd r)
    = requests_made w + count_events is_HttpGet evs + count_events is_HttpPost evs /\
    slept (trace (snd r)) = slept (trace w) /\
    fs (snd r) = fs w.
Proof.
  intros r. subst r. rewrite verify_dapp_auth_unfold.
  destruct (fetch_nonce_loop_events 3 (seq 0 3) w) as (Hfs & evs & Htr & Hev & Hlen & Hreq).
  destruct (fetch_nonce_cases env w)
    as (n0 & evs' & Hn0 & _ & _ & _ & Htr' & _ & Hget & _).
  cbn zeta in Hfs, Htr, Hreq, Htr'. fold (fetch_nonce env w) in Hfs, Htr, Hreq.
  rewrite Htr in Htr'. apply app_inv_head in Htr'. subst evs'.
  assert (Hnopost : count_events is_HttpPost evs = 0).
  { apply (count_events_none _ nonce_event); [|exact Hev]. intros [] H; (discriminate || reflexivity). }
  assert (Hquiet : forall t, forallb verify_event t = true -> slept t = 0%Z).
  { intros t Ht. apply auth_events_no_sleep.
    apply (forallb_weaken verify_event); [|exact Ht].
    intros [] H; (discriminate || reflexivity). }
  assert (Hweak : forallb verify_event evs = true).
  { apply (forallb_weaken nonce_event); [|exact Hev]. exact nonce_event_verify. }
  destruct (fetch_nonce env w) as [[nonce|e] w1]; cbn [fst snd] in *.
  2:{ exists evs. rewrite Htr, slept_app, (Hquiet evs Hweak), Hnopost.
      repeat split; auto; try lia.
      intros (nonce & H & _). discriminate. }
  destruct (truthy nonce) eqn:Htruthy; cbn [negb].
  - destruct nonce as [nonce|]; [|discriminate].
    assert (Hne : nonce <> "").
    { intros ->. discriminate. }
    cbn zeta.
    destruct (attempt (auth_net env (requests_made w1))) as [v|e];
      [|destruct (is_RequestException e)]; cbn [fst snd];
      eexists; cbn [trace world_trace after_request requests_made fs];
      rewrite Htr, <- ?app_assoc;
      (split; [reflexivity|]);
      rewrite ?forallb_app, ?count_events_app, ?slept_app, Hweak, Hnopost,
        (Hquiet evs Hweak); cbn;
      repeat split; eauto; lia.
  - exists (evs ++ [Log ERROR Failed_to_fetch_nonce]).
    cbn [snd trace world_trace requests_made fs]. rewrite Htr, <- app_assoc.
    split; [reflexivity|].
    rewrite forallb_app, !count_events_app, !slept_app, Hweak, Hnopost, (Hquiet evs Hweak).
    cbn. repeat split; auto; try lia.
    intros (n & H & Hne). injection H as ->. cbn in Htruthy.
    destruct (String.eqb_spec n ""); [contradiction|discriminate].
Qed.

(** X2: the authentication flow hands back a token exactly when, after
    retried attempts only, an attempt at the nonce came back with a
    non-empty nonce and the one request that follows it, the
    verification, came back with that token.  The verification is never
    tried twice. *)
Theorem verify_dapp_auth_token (auth : FractionAIAuth) (w : world) (tok : string) :
  let reply k := auth_net env (requests_made w + k) in
  fst (verify_dapp_auth env auth w) = Return (Some tok) <->
  exists n nonce,
    n < 3 /\
    (forall k, k < n -> attempt_fails (reply k) = true) /\
    attempt (reply n) = Return (Some nonce) /\
    nonce <> "" /\
    attempt (reply (S n)) = Return (Some tok).
Proof.
  intros reply. subst reply. cbn beta. rewrite verify_dapp_auth_unfold. split.
  - destruct (fetch_nonce env w) as [[nonce|e] w1] eqn:Hfetch; [|discriminate].
    destruct (truthy nonce) eqn:Htruthy; cbn [negb fst]; [|discriminate].
    destruct nonce as [nonce|]; [|discriminate].
    destruct (fetch_nonce_returned w nonce) as (n & Hn & Hpre & Hatt & Hreq).
    { rewrite Hfetch. reflexivity. }
    rewrite Hfetch in Hreq. cbn [snd] in Hreq. cbn zeta. rewrite Hreq.
    intros H. exists n, nonce. repeat split; auto.
    + intros ->. discriminate.
    + destruct (attempt (auth_net env (requests_made w + S n))) as [v|e];
        cbn in H; [congruence|].
      destruct (is_RequestException e); discriminate.
  - intros (n & nonce & Hn & Hpre & Hatt & Hne & Hver).
    assert (Hok : attempt_fails (auth_net env (requests_made w + n)) = false).
    { unfold attempt_fails. rewrite Hatt. reflexivity. }
    destruct (fetch_nonce_first_unretried w n Hn Hpre Hok) as [Hr Hreq].
    rewrite Hatt in Hr.
    destruct (fetch_nonce env w) as [r1 w1]. cbn [fst snd] in Hr, Hreq. subst r1.
    assert (Htruthy : truthy (Some nonce) = true).
    { cbn. destruct (String.eqb_spec nonce ""); [contradiction|reflexivity]. }
    rewrite Htruthy. cbn [negb]. cbn zeta. rewrite Hreq, Hver. reflexivity.
Qed.

End Verify.

(** ** The message to sign *)

Lemma string_length_app (a b : string) :
  String.length (a +:+ b) = String.length a + String.length b.
Proof.
  induction a as [|c a IH]; [reflexivity|].
  change (String c a +:+ b) with (String c (a +:+ b)).
  cbn [String.length]. rewrite IH. reflexivity.
Qed.

Lemma string_app_assoc (a b c : string) : (a +:+ b) +:+ c = a +:+ (b +:+ c).
Proof.
  induction a as [|x a IH]; [reflexivity|].
  change (String x a +:+ b) with (String x (a +:+ b)).
  change (String x (a +:+ b) +:+ c) with (String x ((a +:+ b) +:+ c)).
  rewrite IH. reflexivity.
Qed.

Lemma string_app_inv_tail (a b s : string) : a +:+ s = b +:+ s -> a = b.
Proof.
  revert b. induction a as [|c a IH]; intros [|c' b] H.
  - reflexivity.
  - apply (f_equal String.length) in H. rewrite !string_length_app in H.
    cbn [String.length] in H. lia.
  - apply (f_equal String.length) in H. rewrite !string_length_app in H.
    cbn [String.length] in H. lia.
  - change (String c (a +:+ s) = String c' (b +:+ s)) in H.
    injection H as -> H. rewrite (IH b H). reflexivity.
Qed.

Lemma string_app_inv_head (p a b : string) : p +:+ a = p +:+ b -> a = b.
Proof.
  induction p as [|c p IH]; [auto|].
  change (String c (p +:+ a) = String c (p +:+ b) -> a = b).
  intros H. injection H as H. auto.
Qed.

Lemma prefix_app (n s : string) : String.prefix n (n +:+ s) = true.
Proof.
  induction n as [|c n IH].
  - change ("" +:+ s) with s. destruct s; reflexivity.
  - change (String c n +:+ s) with (String c (n +:+ s)). cbn [String.prefix].
    destruct (ascii_dec c c); [exact IH|contradiction].
Qed.

Lemma str_contains_prefix (n h : string) :
  String.prefix n h = true -> str_contains n h = true.
Proof.
  intros H. destruct h; cbn [str_contains]; rewrite H; reflexivity.
Qed.

Lemma str_contains_app_l (n p h : string) :
  str_contains n h = true -> str_contains n (p +:+ h) = true.
Proof.
  intros H. induction p as [|c p IH]; [exact H|].
  change (String c p +:+ h) with (String c (p +:+ h)). cbn [str_contains].
  destruct (String.prefix n (String c (p +:+ h))); [reflexivity|exact IH].
Qed.

Section Payload.

Context (env : environ).

(** X3: the message to sign binds the nonce and the wallet: it holds the
    line of the nonce and the line of the wallet address, it ends with
    the time stamp that is handed back with it, which is the time of
    the call, and two nonces never give the same message. *)
Theorem auth_message_binds_nonce (auth : FractionAIAuth) (nonce : string) :
  let message := fst (generate_auth_payload env auth nonce) in
  let issued_at := snd (generate_auth_payload env auth nonce) in
  str_contains ("Nonce: " +:+ nonce +:+ nl) message = true /\
  str_contains (nl +:+ wallet_address auth +:+ nl) message = true /\
  (exists before, message = before +:+ "Issued At: " +:+ issued_at) /\
  issued_at = utcnow env /\
  (forall nonce', fst (generate_auth_payload env auth nonce') = message -> nonce' = nonce).
Proof.
  unfold generate_auth_payload. cbn [fst snd].
  split; [|split; [|split; [|split]]].
  - do 14 apply str_contains_app_l. apply str_contains_prefix.
    rewrite <- (string_app_assoc nonce nl), <- (string_app_assoc "Nonce: " (nonce +:+ nl)).
    apply prefix_app.
  - apply str_contains_app_l, str_contains_prefix.
    rewrite <- (string_app_assoc (wallet_address auth) nl),
      <- (string_app_assoc nl (wallet_address auth +:+ nl)).
    apply prefix_app.
  - exists ("dapp.fractionai.xyz wants you to sign in with your Ethereum account:" +:+ nl
            +:+ wallet_address auth +:+ nl
            +:+ nl
            +:+ "Sign in with your wallet to Fraction AI." +:+ nl
            +:+ nl
            +:+ "URI: https://dapp.fractionai.xyz" +:+ nl
            +:+ "Version: 1" +:+ nl
            +:+ "Chain ID: 11155111" +:+ nl
            +:+ "Nonce: " +:+ nonce +:+ nl).
    rewrite !string_app_assoc. reflexivity.
  - reflexivity.
  - intros nonce' H.
    do 15 apply string_app_inv_head in H.
    exact (string_app_inv_tail _ _ _ H).
Qed.

End Payload.

(** ** The requests of a refresh *)

Section RefreshRequests.

Context (env : environ).

(** X4: whatever verification request a call of [refresh_token] sends
    goes to [/auth/verify], carries the message built for the wallet of
    the key the call was given and for the nonce that [fetch_nonce]
    handed back in that very call, which is not empty, and is signed
    with that key. *)
Theorem refresh_verification_is_signed (key : option string) (st : state)
    (url message signature : string) (evs : list event) :
  trace (out (snd (refresh_token env key st))) = trace (out st) ++ evs ->
  In (HttpPost url message signature) evs ->
  url = BASE_URL +:+ "/auth/verify" /\
  signature = sign env key message /\
  exists address nonce,
    from_key env key = Return address /\
    fst (fetch_nonce env (out (add_events [RefreshToken key] st))) = Return (Some nonce) /\
    nonce <> "" /\
    message
    = fst (generate_auth_payload env
             {| private_key := key; wallet_address := address |} nonce).
Proof.
  rewrite refresh_token_unfold. cbn zeta. unfold FractionAIAuth_init.
  destruct (from_key env key) as [address|e].
  2:{ cbn. intros H Hin. apply app_inv_head in H. subst evs.
      destruct Hin as [Hin|[]]; discriminate. }
  set (auth := {| private_key := key; wallet_address := address |}).
  change (state_trace (fun t => t ++ [RefreshToken key]) st)
    with (add_events [RefreshToken key] st).
  set (st1 := add_events [RefreshToken key] st).
  rewrite verify_dapp_auth_unfold.
  destruct (fetch_nonce_loop_events env 3 (seq 0 3) (out st1))
    as (_ & evs0 & Htr0 & Hev0 & _).
  cbn zeta in Htr0. fold (fetch_nonce env (out st1)) in Htr0.
  assert (Hno : ~ In (HttpPost url message signature) evs0).
  { intros Hin. rewrite forallb_forall in Hev0. specialize (Hev0 _ Hin). discriminate. }
  assert (Hpost : forall nonce,
            fst (fetch_nonce env (out st1)) = Return (Some nonce) ->
            nonce <> "" ->
            HttpPost (BASE_URL +:+ "/auth/verify")
              (fst (generate_auth_payload env auth nonce))
              (sign_message env auth (fst (generate_auth_payload env auth nonce)))
            = HttpPost url message signature ->
            url = BASE_URL +:+ "/auth/verify" /\
            signature = sign env key message /\
            exists address0 nonce0,
              Return address = Return address0 /\
              fst (fetch_nonce env (out st1)) = Return (Some nonce0) /\
              nonce0 <> "" /\
              message
              = fst (generate_auth_payload env
                       {| private_key := key; wallet_address := address0 |} nonce0)).
  { intros nonce Hfetch Hne H. injection H as <- <- <-.
    split; [reflexivity|]. split; [reflexivity|]. exists address, nonce. auto. }
  destruct (fetch_nonce env (out st1)) as [[nonce|e] w1]; cbn [snd] in Htr0.
  2:{ cbn. rewrite Htr0. cbn. rewrite <- !app_assoc.
      intros H Hin. apply app_inv_head in H. subst evs.
      rewrite !in_app_iff in Hin. cbn in Hin. intuition discriminate. }
  destruct (truthy nonce) eqn:Htruthy; cbn [negb].
  2:{ cbn. rewrite Htr0. cbn. rewrite <- !app_assoc.
      intros H Hin. apply app_inv_head in H. subst evs.
      rewrite !in_app_iff in Hin. cbn in Hin. intuition discriminate. }
  destruct nonce as [nonce|]; [|discriminate].
  assert (Hne : nonce <> "") by (intros ->; discriminate).
  specialize (Hpost nonce eq_refl Hne). cbn [default]. cbn zeta.
  destruct (attempt (auth_net env (requests_made w1))) as [v|e];
    [destruct (truthy v)|destruct (is_RequestException e)];
    cbn [fst snd out trace state_trace world_trace after_request truthy];
    rewrite Htr0; subst st1;
    cbn [fst snd out trace add_events state_trace world_trace after_request];
    rewrite <- !app_assoc; unfold id in *;
    intros H Hin; apply app_inv_head in H; subst evs;
    rewrite !in_app_iff in Hin; cbn [In] in Hin;
    intuition (discriminate || auto).
Qed.

End RefreshRequests.

(** ** One call of initiate_match *)

Lemma random_choice_member {A : Type} (draw : nat) (options : list A) (x : A) :
  random_choice draw options = Return x -> In x options.
Proof.
  unfold random_choice.
  destruct (options !! (draw mod length options)) as [y|] eqn:Hy; [|discriminate].
  intros H. injection H as <-.
  apply list_elem_of_In. exact (list_elem_of_lookup_2 _ _ _ Hy).
Qed.

(** The first segment of [initiate_match]: without an entry fee to draw
    [random.choice] raises and nothing is sent; otherwise the request
    goes out with a fee of the list. *)
Lemma send_request_cases (agent_id : Z) (draw : nat) (st : state) :
  (entry_fees (self st) = [] /\
   send_request agent_id draw st = (Raise IndexError, st)) \/
  (exists fee,
     In fee (entry_fees (self st)) /\
     send_request agent_id draw st
     = (Return tt, add_events [initiate_event (self st) agent_id fee] st)).
Proof.
  destruct (entry_fees (self st)) as [|f fees] eqn:Hfees.
  - left. split; [reflexivity|]. apply send_request_empty, Hfees.
  - right. rewrite <- Hfees.
    assert (Hne : entry_fees (self st) <> []) by congruence.
    destruct (random_choice_nonempty draw _ Hne) as [fee Hfee].
    exists fee. split; [exact (random_choice_member _ _ _ Hfee)|].
    unfold send_request, bind, get_self, lift_outcome, emit.
    rewrite Hfee. reflexivity.
Qed.

Lemma selects_any_initiate : selects is_Initiate (fun _ => 1) 0.
Proof.
  split; [|split].
  - intros [] H; (discriminate || reflexivity).
  - intros url h payload. reflexivity.
  - intros key. reflexivity.
Qed.

Section Call.

Context (env : environ).

(** X5: when the request of [initiate_match] itself fails, at
    [session.post] or at [response.json()], whatever the status, then an
    exception of the classes [TimeoutError] and [aiohttp.ClientError] is
    logged, the call sleeps 5 seconds and returns [None]; it does not
    send the request again.  Any other exception leaves the call at
    once: nothing is logged and nothing is waited for. *)
Theorem failed_request_waits_5_seconds (agent_id : Z) (draw : nat)
    (rep : post_reply) (st : state) (e : exn) :
  entry_fees (self st) <> [] ->
  request_raises rep = Some e ->
  let r := initiate_match env agent_id draw rep st in
  exists fee,
    In fee (entry_fees (self st)) /\
    if is_TimeoutError_or_ClientError e then
      fst r = Return JNull /\
      adds [initiate_event (self st) agent_id fee;
            Log ERROR (Attempt_failed e);
            Sleep 5] st (snd r)
    else
      fst r = Raise e /\
      adds [initiate_event (self st) agent_id fee] st (snd r).
Proof.
  intros Hfees Hraises r. subst r.
  destruct (send_request_cases agent_id draw st) as [[Hnil _]|(fee & Hin & Hsend)];
    [contradiction|].
  exists fee. split; [exact Hin|].
  rewrite (initiate_match_unfold env _ _ _ _ _ Hsend), handle_response_unfold.
  assert (Hrep : rep = PostRaises e \/ exists status, rep = PostResponse status (Raise e)).
  { destruct rep as [e'|status [data|e']]; cbn in Hraises;
      [left|discriminate|right; exists status]; congruence. }
  destruct Hrep as [->|[status ->]];
    destruct (is_TimeoutError_or_ClientError e); cbn [fst snd];
    (split; [reflexivity|]); unfold adds; cbn; rewrite <- ?app_assoc; auto.
Qed.

(** X6: unless the answer tells that the token is invalid or required,
    a call of [initiate_match] leaves the session, the token file and
    the authentication server alone: it calls no [refresh_token], and
    all it adds to the trace is its own request, log lines and a
    sleep. *)
Theorem no_refresh_unless_token_rejected (agent_id : Z) (draw : nat)
    (rep : post_reply) (st : state) :
  auth_expired rep = false ->
  let r := initiate_match env agent_id draw rep st in
  exists evs,
    adds evs st (snd r) /\
    refresh_calls evs = 0 /\
    forallb (fun e => is_Initiate e || is_Log e || is_Sleep e) evs = true.
Proof.
  intros Hexp r. subst r.
  destruct (send_request_cases agent_id draw st) as [[Hnil Hsend]|(fee & Hin & Hsend)].
  { rewrite (initiate_match_unsent env _ _ _ _ _ _ Hsend). cbn.
    exists []. split; [apply adds_refl|]. auto. }
  rewrite (initiate_match_unfold env _ _ _ _ _ Hsend).
  destruct (handle_response_cases env agent_id rep
              (add_events [initiate_event (self st) agent_id fee] st))
    as [(e & -> & _)|[(data & _ & _ & ->)|[(s & d & err & _ & _ & _ & _ & _ & ->)
       |[(s & d & _ & _ & _ & ->)|(s & d & _ & _ & Hyes & _)]]]];
    [| | | |congruence].
  - destruct (is_TimeoutError_or_ClientError e); cbn [snd];
      eexists; (split; [unfold adds; cbn; rewrite <- ?app_assoc; auto|]);
      cbn; auto.
  - eexists. split; [unfold adds; cbn; rewrite <- ?app_assoc; auto|]. cbn. auto.
  - eexists. split; [unfold adds; cbn; rewrite <- ?app_assoc; auto|]. cbn. auto.
  - rewrite log_error_and_wait_adds.
    eexists. split; [unfold adds; cbn; rewrite <- ?app_assoc; auto|]. cbn. auto.
Qed.

(** X7: the waiting of one call of [initiate_match].  A call that raises
    has not slept.  A call that returns has either been answered with
    status 200, in which case it returns the body and has not slept, or
    it returns [None] after a sleep of 5, 60 or 180 seconds. *)
Theorem initiate_match_delays (agent_id : Z) (draw : nat)
    (rep : post_reply) (st : state) :
  let r := initiate_match env agent_id draw rep st in
  let waited := (slept (trace (out (snd r))) - slept (trace (out st)))%Z in
  match fst r with
  | Raise _ => waited = 0%Z
  | Return v =>
      (rep = PostResponse 200 (Return v) /\ waited = 0%Z) \/
      (v = JNull /\ (waited = 5 \/ waited = 60 \/ waited = 180)%Z)
  end.
Proof.
  intros r waited. subst r waited.
  destruct (send_request_cases agent_id draw st) as [[Hnil Hsend]|(fee & Hin & Hsend)].
  { rewrite (initiate_match_unsent env _ _ _ _ _ _ Hsend). cbn. lia. }
  rewrite (initiate_match_unfold env _ _ _ _ _ Hsend).
  remember (add_events [initiate_event (self st) agent_id fee] st) as st1 eqn:Est1.
  assert (H1 : slept (trace (out st1)) = slept (trace (out st))).
  { rewrite Est1. cbn. rewrite slept_app. cbn. lia. }
  assert (H5 : forall e st2,
            slept (trace (out (add_events [Sleep 5]
                                 (add_events [Log ERROR (Attempt_failed e)] st2))))
            = (slept (trace (out st2)) + 5)%Z).
  { intros e st2. cbn. rewrite !slept_app. cbn. lia. }
  assert (H60 : forall data st2,
            snd (log_error_and_wait data st2)
            = add_events [Sleep 60]
                (add_events [Log ERROR (Error_initiating_match data)] st2) /\
            fst (log_error_and_wait data st2) = Return (Sleeps 60) /\
            slept (trace (out (snd (log_error_and_wait data st2))))
            = (slept (trace (out st2)) + 60)%Z).
  { intros data st2. rewrite log_error_and_wait_adds. cbn. rewrite !slept_app. cbn.
    repeat split. lia. }
  destruct (handle_response_cases env agent_id rep st1)
    as [(e & -> & _)|[(data & -> & _ & ->)|[(s & d & err & _ & _ & _ & _ & _ & ->)
       |[(s & d & _ & _ & _ & ->)|(s & d & _ & _ & _ & ->)]]]].
  - destruct (is_TimeoutError_or_ClientError e); cbn [fst snd].
    + right. split; [reflexivity|]. left. rewrite H5. lia.
    + lia.
  - cbn [fst snd]. left. split; [reflexivity|]. cbn. rewrite slept_app. cbn. lia.
  - cbn [fst snd]. right. split; [reflexivity|]. right. right.
    cbn. rewrite !slept_app. cbn. lia.
  - destruct (H60 d st1) as (_ & Hfst & Hslept).
    destruct (log_error_and_wait d st1) as [res st2]. cbn [fst snd] in *. subst res.
    cbn [fst snd]. right. split; [reflexivity|]. right. left. lia.
  - destruct (refresh_token_once env (PRIVATE_KEY env) st1) as [_ Hquiet].
    destruct (refresh_token env (PRIVATE_KEY env) st1) as [[u|e] st'];
      cbn [fst snd] in Hquiet.
    + destruct (H60 d st') as (_ & Hfst & Hslept).
      destruct (log_error_and_wait d st') as [res st2]. cbn [fst snd] in *. subst res.
      cbn [fst snd]. right. split; [reflexivity|]. right. left. lia.
    + destruct (is_TimeoutError_or_ClientError e); cbn [fst snd].
      * right. split; [reflexivity|]. left. rewrite H5. lia.
      * lia.
Qed.

(** X8: a call of [initiate_match] sends one request and no more.  The
    request goes to [/matchmaking/initiate] with the headers the
    session has at that moment, for the agent of the call, the user of
    the session, session type 1 and an entry fee out of the list of the
    session.  When that list is empty the call raises [IndexError]
    before anything is sent, logged or waited for. *)
Theorem initiate_match_sends_one_request (agent_id : Z) (draw : nat)
    (rep : post_reply) (st : state) :
  let r := initiate_match env agent_id draw rep st in
  (entry_fees (self st) = [] -> r = (Raise IndexError, st)) /\
  (entry_fees (self st) <> [] ->
   exists fee evs,
     In fee (entry_fees (self st)) /\
     trace (out (snd r))
     = trace (out st)
       ++ Initiate (BASE_URL +:+ "/matchmaking/initiate") (headers (self st))
            {| agentId := agent_id; entryFees := fee; sessionTypeId := 1;
               userId := user_id (self st) |}
          :: evs /\
     count_events is_Initiate evs = 0).
Proof.
  intros r. subst r.
  destruct (send_request_cases agent_id draw st) as [[Hnil Hsend]|(fee & Hin & Hsend)].
  { split; [|contradiction]. intros _.
    rewrite (initiate_match_unsent env _ _ _ _ _ _ Hsend). reflexivity. }
  split.
  { intros Hnil. rewrite Hnil in Hin. contradiction. }
  intros _. exists fee.
  rewrite (initiate_match_unfold env _ _ _ _ _ Hsend).
  destruct (handle_response_effect env is_Initiate _ _ agent_id rep
              (add_events [initiate_event (self st) agent_id fee] st)
              selects_any_initiate) as (_ & _ & evs & Htr & Hcount).
  assert (Hzero : count_events is_Initiate evs = 0)
    by (destruct (auth_expired rep); exact Hcount).
  destruct (handle_response env agent_id rep _) as [[[v|secs]|e] st2];
    cbn [snd] in Htr; [| |destruct (is_TimeoutError_or_ClientError e)];
    cbn [snd]; cbn [add_events state_trace world_trace out trace]; rewrite ?Htr;
    cbn [add_events state_trace world_trace out trace];
    rewrite <- ?app_assoc; eexists;
    (split; [exact Hin|]); (split; [reflexivity|]);
    rewrite ?count_events_app, Hzero; reflexivity.
Qed.

End Call.

Section RejectedKey.

Context (env : environ).

(** X9: when the wallet library rejects the key of the environment (as
    it does when [PRIVATE_KEY] is not set), an answer that calls for a
    refresh makes [initiate_match] raise what the library raised, unless
    it is of the classes the [except] clause names.  The call has then
    sent its own request and entered [refresh_token], and nothing else:
    no request for a nonce, no change of the session or of the file, no
    error line and no sleep. *)
Theorem rejected_key_escapes_initiate_match (agent_id : Z) (draw : nat)
    (rep : post_reply) (st : state) (e : exn) :
  entry_fees (self st) <> [] ->
  auth_expired rep = true ->
  from_key env (PRIVATE_KEY env) = Raise e ->
  let r := initiate_match env agent_id draw rep st in
  exists fee,
    In fee (entry_fees (self st)) /\
    if is_TimeoutError_or_ClientError e then
      fst r = Return JNull /\
      adds [initiate_event (self st) agent_id fee;
            RefreshToken (PRIVATE_KEY env);
            Log ERROR (Attempt_failed e);
            Sleep 5] st (snd r)
    else
      fst r = Raise e /\
      adds [initiate_event (self st) agent_id fee;
            RefreshToken (PRIVATE_KEY env)] st (snd r).
Proof.
  intros Hfees Hexp Hkey r. subst r.
  destruct (send_request_cases agent_id draw st) as [[Hnil _]|(fee & Hin & Hsend)];
    [contradiction|].
  exists fee. split; [exact Hin|].
  rewrite (initiate_match_unfold env _ _ _ _ _ Hsend).
  destruct (handle_response_cases env agent_id rep
              (add_events [initiate_event (self st) agent_id fee] st))
    as [(e' & _ & Hno & _)|[(data & _ & Hno & _)|[(s & d & err & _ & _ & Hno & _)
       |[(s & d & _ & _ & Hno & _)|(s & d & _ & _ & _ & ->)]]]];
    try congruence.
  rewrite refresh_token_unfold. unfold FractionAIAuth_init. rewrite Hkey. cbn zeta.
  destruct (is_TimeoutError_or_ClientError e); cbn [fst snd];
    (split; [reflexivity|]); unfold adds; cbn; rewrite <- ?app_assoc; auto.
Qed.

End RejectedKey.

(** ** Starting up *)

Lemma lstrip_starts_clean (s : string) : starts_clean (lstrip s) = true.
Proof.
  induction s as [|c s IH]; [reflexivity|]. cbn [lstrip].
  destruct (isspace c) eqn:Hc; [exact IH|]. cbn [starts_clean]. rewrite Hc. reflexivity.
Qed.

Lemma rstrip_ends_clean (s : string) : ends_clean (rstrip s) = true.
Proof.
  induction s as [|c s IH]; [reflexivity|]. cbn [rstrip].
  destruct (rstrip s) as [|c' kept].
  - destruct (isspace c) eqn:Hc; [reflexivity|]. cbn [ends_clean]. rewrite Hc. reflexivity.
  - exact IH.
Qed.

Lemma rstrip_starts_clean (s : string) :
  starts_clean s = true -> starts_clean (rstrip s) = true.
Proof.
  destruct s as [|c s]; [reflexivity|]. cbn [starts_clean rstrip]. intros Hc.
  destruct (rstrip s); [|exact Hc].
  destruct (isspace c) eqn:E; [discriminate|].
  cbn [starts_clean]. rewrite E. reflexivity.
Qed.

(** What [strip] hands back has no white space at either end. *)
Lemma strip_is_clean (s : string) :
  starts_clean (strip s) = true /\ ends_clean (strip s) = true.
Proof.
  unfold strip. split.
  - apply rstrip_starts_clean, lstrip_starts_clean.
  - apply rstrip_ends_clean.
Qed.

Lemma truthy_Some (s : string) : truthy (Some s) = true <-> s <> "".
Proof.
  cbn. destruct (String.eqb_spec s ""); split; (congruence || discriminate || auto).
Qed.

Section Start.

Context (env : environ).


(** [main] after its token is settled. *)
Lemma main_unfold (w : world) :
  main env w
  = match main_token env w with
    | (Raise e, w1) => (Raise e, w1)
    | (Return tok, w1) =>
        if truthy tok then
          (Return (Some {| now := {| self := GameSession_init (default "" tok) 17267;
                                     out := w1 |};
                           at_phase := LoopTop;
                           cycle := 0 |}),
           w1)
        else
          (Return None,
           world_trace (fun t => t ++ [Log ERROR Failed_to_initialize_token]) w1)
    end.
Proof.
  unfold main. unfold bind at 1.
  destruct (main_token env w) as [[tok|e] w1]; [|reflexivity].
  destruct (truthy tok); reflexivity.
Qed.

(** X10: with a token file in place [main] never authenticates: it
    sends no request and leaves the file as it is.  The token of the
    session is the content of the file without the white space at its
    ends.  A file that holds white space only gives no token: [main]
    logs the failure and ends without a session, although a key may be
    at hand. *)
Theorem main_with_token_file (w : world) (content : string) :
  fs w = Some content ->
  let tok := strip (read_translate content) in
  let r := main env w in
  starts_clean tok = true /\
  ends_clean tok = true /\
  fs (snd r) = fs w /\
  requests_made (snd r) = requests_made w /\
  (tok = "" ->
   fst r = Return None /\
   trace (snd r) = trace w ++ [Log ERROR Failed_to_initialize_token]) /\
  (tok <> "" ->
   r = (Return (Some {| now := {| self := GameSession_init tok 17267; out := w |};
                        at_phase := LoopTop;
                        cycle := 0 |}),
        w)).
Proof.
  intros Hfs tok r. subst r.
  destruct (strip_is_clean (read_translate content)) as [Hstart Hend].
  rewrite main_unfold, (main_token_reads_file env w content Hfs). fold tok.
  split; [exact Hstart|]. split; [exact Hend|].
  destruct (truthy (Some tok)) eqn:Htruthy.
  - apply truthy_Some in Htruthy. cbn. repeat split; auto; contradiction.
  - assert (Hempty : tok = "").
    { destruct (String.eqb_spec tok "") as [H|H]; [exact H|].
      apply truthy_Some in H. congruence. }
    cbn. repeat split; auto; contradiction.
Qed.


End Start.

(** ** What the loop keeps *)

Section Keeps.

Context (env : environ) (P : GameSession -> option string -> Prop).

Hypothesis HP : kept_by_refresh (linesep env) P.

Lemma adds_keeps (evs : list event) (st st' : state) :
  adds evs st st' -> holds P st -> holds P st'.
Proof. intros (Hself & Hfs & _) H. unfold holds. rewrite Hself, Hfs. exact H. Qed.

Lemma add_events_keeps (evs : list event) (st : state) :
  holds P st -> holds P (add_events evs st).
Proof. exact (adds_keeps evs st _ (adds_add_events evs st)). Qed.

(** A call of [refresh_token] changes the session and the file together
    and only when it obtained a token. *)
Lemma refresh_token_keeps (key : option string) (st : state) :
  holds P st -> holds P (snd (refresh_token env key st)).
Proof.
  intros H.
  destruct (refresh_token_cases env key st)
    as (evs & _ & _ & [(e & _ & Hself & Hfs & _)|[(_ & _ & Hself & Hfs & _)
       |(tok & (auth & _ & _ & Htruthy) & _ & Hself & Hfs & _)]]);
    cbn zeta in Hself, Hfs; unfold holds; rewrite Hself, Hfs.
  - exact H.
  - exact H.
  - apply truthy_Some in Htruthy. exact (HP _ _ tok H Htruthy).
Qed.

Lemma log_error_and_wait_keeps (data : json) (st : state) :
  holds P st -> holds P (snd (log_error_and_wait data st)).
Proof.
  intros H. rewrite log_error_and_wait_adds. cbn [snd].
  apply add_events_keeps, add_events_keeps, H.
Qed.

Lemma handle_response_keeps (agent_id : Z) (rep : post_reply) (st : state) :
  holds P st -> holds P (snd (handle_response env agent_id rep st)).
Proof.
  intros H.
  destruct (handle_response_cases env agent_id rep st)
    as [(e & -> & _)|[(data & _ & _ & ->)|[(s & d & err & _ & _ & _ & _ & _ & ->)
       |[(s & d & _ & _ & _ & ->)|(s & d & _ & _ & _ & ->)]]]]; cbn [snd].
  - exact H.
  - apply add_events_keeps, H.
  - apply add_events_keeps, add_events_keeps, H.
  - apply log_error_and_wait_keeps, H.
  - pose proof (refresh_token_keeps (PRIVATE_KEY env) st H) as Href.
    destruct (refresh_token env (PRIVATE_KEY env) st) as [[u|e] st']; cbn [snd] in *.
    + apply log_error_and_wait_keeps, Href.
    + exact Href.
Qed.

Lemma resume_keeps (agent_id : Z) (draw : nat) (rep : post_reply)
    (c : coroutine) (st : state) :
  holds P st -> holds P (snd (resume env agent_id draw rep c st)).
Proof.
  intros H. destruct c as [| |secs|res]; cbn [resume snd]; try exact H.
  - destruct (send_request_cases agent_id draw st) as [[_ ->]|(fee & _ & ->)];
      cbn [snd is_TimeoutError_or_ClientError]; [exact H|].
    apply add_events_keeps, H.
  - unfold try_except.
    pose proof (handle_response_keeps agent_id rep st H) as Hh.
    destruct (handle_response env agent_id rep st) as [[[v|secs]|e] st2];
      cbn [fst snd settle] in *; try exact Hh.
    destruct (is_TimeoutError_or_ClientError e); cbn [snd settle]; [|exact Hh].
    rewrite except_clause_adds. cbn [snd settle].
    apply add_events_keeps, add_events_keeps, Hh.
Qed.

Lemma step_keeps (pick : nat) (r : runner) :
  holds P (now r) -> holds P (now (step env pick r)).
Proof.
  intros H. unfold step. destruct (at_phase r) as [|tasks|]; cbn [now]; try exact H.
  destruct (forallb (fun t => is_done (snd t)) tasks); cbn [now].
  - exact H.
  - destruct (tasks !! pick) as [[a c]|]; [|exact H].
    pose proof (resume_keeps a (fee_draw env (cycle r) pick)
                  (initiate_net env (cycle r) pick) c (now r) H) as Hr.
    destruct (resume env a _ _ c (now r)) as [c' st']. exact Hr.
Qed.

Lemma run_keeps (schedule : list nat) (r : runner) :
  holds P (now r) -> holds P (now (run env schedule r)).
Proof.
  revert r. induction schedule as [|pick rest IH]; intros r H; [exact H|].
  cbn [run]. apply IH, step_keeps, H.
Qed.

End Keeps.

Lemma has_token_kept (sep : string) : kept_by_refresh sep has_token.
Proof. intros g f tok _ Hne. exact Hne. Qed.

Lemma headers_generated_kept (sep : string) : kept_by_refresh sep headers_generated.
Proof. intros g f tok _ _. reflexivity. Qed.

Section Loop.

Context (env : environ).

(** X12: the session never loses its token.  Whatever the servers
    answer and in whatever order the tasks run, a session that has a
    token has one after every step of the loop: a refresh replaces the
    token only by a non-empty one. *)
Theorem token_never_empty (schedule : list nat) (r : runner) :
  token (self (now r)) <> "" ->
  token (self (now (run env schedule r))) <> "".
Proof.
  exact (run_keeps env has_token (has_token_kept _) schedule r).
Qed.

(** X14: all along the loop the headers of the session are the six that
    [_generate_headers] builds for the token of the moment: no header
    is added, dropped or left behind by a refresh. *)
Theorem headers_always_generated (tok : string) (uid : Z) (w : world)
    (schedule : list nat) :
  let r := {| now := {| self := GameSession_init tok uid; out := w |};
              at_phase := LoopTop; cycle := 0 |} in
  headers (self (now (run env schedule r)))
  = _generate_headers (self (now (run env schedule r))) /\
  size (headers (self (now (run env schedule r)))) = 6.
Proof.
  intros r.
  assert (H : headers (self (now (run env schedule r)))
              = _generate_headers (self (now (run env schedule r)))).
  { apply (run_keeps env headers_generated (headers_generated_kept _) schedule r).
    reflexivity. }
  split; [exact H|]. rewrite H. reflexivity.
Qed.

End Loop.

(** ** The cost of a cycle at the authentication server *)

Section Cost.

Context (env : environ).

Lemma verify_dapp_auth_cost (auth : FractionAIAuth) (w : world) :
  requests_made w <= requests_made (snd (verify_dapp_auth env auth w))
  <= requests_made w + 4.
Proof.
  rewrite verify_dapp_auth_unfold.
  destruct (fetch_nonce_cases env w) as (n0 & evs & Hn0 & _ & Hreq & _).
  cbn zeta in Hreq.
  destruct (fetch_nonce env w) as [[nonce|e] w1]; cbn [snd] in Hreq; [|cbn; lia].
  destruct (negb (truthy nonce)); [cbn; lia|]. cbn zeta.
  destruct (attempt (auth_net env (requests_made w1))) as [v|e];
    [|destruct (is_RequestException e)]; cbn; lia.
Qed.

Lemma refresh_token_cost (key : option string) (st : state) :
  requests_made (out st) <= requests_made (out (snd (refresh_token env key st)))
  <= requests_made (out st) + 4.
Proof.
  rewrite refresh_token_unfold. cbn zeta.
  destruct (FractionAIAuth_init env key) as [auth|e]; [|cbn; lia].
  pose proof (verify_dapp_auth_cost auth
                (out (state_trace (fun t => t ++ [RefreshToken key]) st))) as H.
  destruct (verify_dapp_auth env auth _) as [[v|e] w]; [destruct (truthy v)|];
    cbn in *; lia.
Qed.

Lemma log_error_and_wait_cost (data : json) (st : state) :
  requests_made (out (snd (log_error_and_wait data st))) = requests_made (out st).
Proof. reflexivity. Qed.

Lemma handle_response_cost (agent_id : Z) (rep : post_reply) (st : state) :
  requests_made (out st)
  <= requests_made (out (snd (handle_response env agent_id rep st)))
  <= requests_made (out st) + (if auth_expired rep then 4 else 0).
Proof.
  destruct (handle_response_cases env agent_id rep st)
    as [(e & -> & -> & _)|[(data & _ & -> & ->)|[(s & d & err & _ & _ & -> & _ & _ & ->)
       |[(s & d & _ & _ & -> & ->)|(s & d & _ & _ & -> & ->)]]]]; cbn [snd];
    try (cbn; lia).
  pose proof (refresh_token_cost (PRIVATE_KEY env) st) as H.
  destruct (refresh_token env (PRIVATE_KEY env) st) as [[u|e] st']; cbn [snd] in *.
  - rewrite log_error_and_wait_cost. lia.
  - lia.
Qed.

(** A resumption sends authentication requests only on account of the
    refresh its task owed, four at most. *)
Lemma resume_cost (cyc i : nat) (agent_id : Z) (c : coroutine) (st : state) :
  let res := resume env agent_id (fee_draw env cyc i) (initiate_net env cyc i) c st in
  requests_made (out st) <= requests_made (out (snd res)) /\
  requests_made (out (snd res)) + 4 * refresh_owed env cyc i (agent_id, fst res)
  <= requests_made (out st) + 4 * refresh_owed env cyc i (agent_id, c).
Proof.
  cbn zeta. unfold refresh_owed, owed. destruct c as [| |secs|res]; cbn [resume fst snd].
  - destruct (send_request_cases agent_id (fee_draw env cyc i) st)
      as [[_ ->]|(fee & _ & ->)]; cbn;
      destruct (auth_expired (initiate_net env cyc i)); lia.
  - unfold try_except.
    pose proof (handle_response_cost agent_id (initiate_net env cyc i) st) as H.
    destruct (handle_response env agent_id (initiate_net env cyc i) st)
      as [[[v|secs]|e] st2]; cbn [fst snd settle] in *;
      [| |destruct (is_TimeoutError_or_ClientError e); cbn];
      destruct (auth_expired (initiate_net env cyc i)); lia.
  - lia.
  - lia.
Qed.

Lemma step_cycle_mono (pick : nat) (r : runner) : cycle r <= cycle (step env pick r).
Proof.
  unfold step. destruct (at_phase r) as [|tasks|]; cbn [cycle]; try lia.
  destruct (forallb (fun t => is_done (snd t)) tasks); cbn [cycle]; [lia|].
  destruct (tasks !! pick) as [[a c]|]; [|lia].
  destruct (resume env a _ _ c (now r)) as [c' st']. cbn. lia.
Qed.

Lemma run_cycle_mono (schedule : list nat) (r : runner) :
  cycle r <= cycle (run env schedule r).
Proof.
  revert r. induction schedule as [|pick rest IH]; intros r; cbn [run]; [lia|].
  pose proof (step_cycle_mono pick r). pose proof (IH (step env pick r)). lia.
Qed.

(** Once the runner sleeps at the end of a cycle, any further step
    belongs to a later cycle. *)
Lemma cycle_sleep_ends_cycle (schedule : list nat) (r : runner) :
  at_phase r = CycleSleep ->
  cycle (run env schedule r) = cycle r ->
  schedule = [].
Proof.
  intros Hphase Hcycle. destruct schedule as [|pick rest]; [reflexivity|].
  exfalso. cbn [run] in Hcycle. rewrite (step_wake env pick r Hphase) in Hcycle.
  match type of Hcycle with cycle (run env rest ?r1) = _ =>
    pose proof (run_cycle_mono rest r1) as Hmono end.
  cbn in Hmono. lia.
Qed.

(** The three ways a step goes on inside [gather]. *)
Lemma step_gather_cases (pick : nat) (r : runner) (tasks : list (Z * coroutine)) :
  at_phase r = Gathering tasks ->
  (all_done tasks = true /\
   step env pick r
   = {| now := add_events
                 (cycle_report (agent_ids (self (now r))) tasks
                  ++ [Log INFO Completed_one_full_cycle; Sleep 10])
                 (now r);
        at_phase := CycleSleep;
        cycle := cycle r |})
  \/
  (all_done tasks = false /\ tasks !! pick = None /\ step env pick r = r)
  \/
  (all_done tasks = false /\
   exists a c,
     tasks !! pick = Some (a, c) /\
     let res := resume env a (fee_draw env (cycle r) pick)
                  (initiate_net env (cycle r) pick) c (now r) in
     step env pick r
     = {| now := snd res;
          at_phase := Gathering (<[pick := (a, fst res)]> tasks);
          cycle := cycle r |}).
Proof.
  intros Hphase. unfold step. rewrite Hphase. fold (all_done tasks).
  destruct (all_done tasks).
  - left. split; reflexivity.
  - right. destruct (tasks !! pick) as [[a c]|] eqn:Hpick.
    + right. split; [reflexivity|]. exists a, c. split; [reflexivity|]. cbn zeta.
      destruct (resume env a _ _ c (now r)) as [c' st']. reflexivity.
    + left. auto.
Qed.

Lemma gather_cost (schedule : list nat) (r : runner) (tasks : list (Z * coroutine)) :
  at_phase r = Gathering tasks ->
  at_phase (run env schedule r) = CycleSleep ->
  cycle (run env schedule r) = cycle r ->
  requests_made (out (now r)) <= requests_made (out (now (run env schedule r)))
  <= requests_made (out (now r)) + 4 * weigh (refresh_owed env (cycle r)) 0 tasks.
Proof.
  revert r tasks.
  induction schedule as [|pick rest IH]; intros r tasks Hphase Hend Hcycle.
  - cbn in Hend. congruence.
  - cbn [run] in *.
    pose proof (step_cycle_mono pick r) as Hmono1.
    pose proof (run_cycle_mono rest (step env pick r)) as Hmono2.
    assert (Hcyc1 : cycle (step env pick r) = cycle r) by lia.
    rewrite <- Hcyc1 in Hcycle.
    destruct (step_gather_cases pick r tasks Hphase)
      as [[_ Hstep]|[(_ & _ & Hstep)|(_ & a & c & Hpick & Hstep)]].
    + assert (Hsleep : at_phase (step env pick r) = CycleSleep)
        by (rewrite Hstep; reflexivity).
      rewrite (cycle_sleep_ends_cycle rest _ Hsleep Hcycle). cbn [run].
      rewrite Hstep. cbn. lia.
    + rewrite Hstep in *. exact (IH r tasks Hphase Hend Hcycle).
    + cbn zeta in Hstep.
      pose proof (resume_cost (cycle r) pick a c (now r)) as [Hlo Hhi].
      cbn zeta in Hlo, Hhi.
      assert (Hphase1 : at_phase (step env pick r)
                        = Gathering (<[pick := (a, fst (resume env a
                                      (fee_draw env (cycle r) pick)
                                      (initiate_net env (cycle r) pick) c (now r)))]> tasks))
        by (rewrite Hstep; reflexivity).
      specialize (IH _ _ Hphase1 Hend Hcycle).
      rewrite Hcyc1 in IH.
      assert (Hnow : now (step env pick r)
                     = snd (resume env a (fee_draw env (cycle r) pick)
                              (initiate_net env (cycle r) pick) c (now r)))
        by (rewrite Hstep; reflexivity).
      rewrite Hnow in IH.
      pose proof (weigh_insert (refresh_owed env (cycle r)) 0 pick tasks
                    (a, c) (a, fst (resume env a (fee_draw env (cycle r) pick)
                                      (initiate_net env (cycle r) pick) c (now r)))
                    Hpick) as Hw.
      cbn [Nat.add] in Hw. lia.
Qed.

(** X16: what a cycle costs the authentication server.  Over a completed
    cycle the number of requests made to the authentication server
    grows by four at most for each agent whose answer told that the
    token is invalid or required, in whatever order the tasks run; a
    cycle without such an answer sends none. *)
Theorem cycle_authentication_cost (schedule : list nat) (r : runner) :
  at_phase r = LoopTop ->
  at_phase (run env schedule r) = CycleSleep ->
  cycle (run env schedule r) = cycle r ->
  requests_made (out (now r)) <= requests_made (out (now (run env schedule r)))
  <= requests_made (out (now r))
     + 4 * expired_agents env (cycle r) (agent_ids (self (now r))).
Proof.
  intros Hphase Hend Hcycle.
  destruct schedule as [|pick rest]; [cbn in Hend; congruence|].
  cbn [run] in *. rewrite (step_top env pick r Hphase) in *.
  match goal with |- context [run env rest ?r1] =>
    exact (gather_cost rest r1 _ eq_refl Hend Hcycle) end.
Qed.

End Cost.

(** ** The report of a cycle *)

Lemma forallb_Forall_task (P : event -> Prop) (evs : list event) :
  (forall e, task_event e = true -> P e) ->
  forallb task_event evs = true -> Forall P evs.
Proof.
  intros HP. induction evs as [|e evs IH]; cbn; [constructor|].
  intros [He Hevs]%andb_prop. constructor; auto.
Qed.

Lemma created_tasks_lookup (roster : list Z) (i : nat) (a : Z) (c : coroutine) :
  map (fun a => (a, Created)) roster !! i = Some (a, c) -> c = Created.
Proof.
  revert i. induction roster as [|x roster IH]; intros i H; [discriminate|].
  destruct i as [|i].
  - cbn in H. injection H as _ <-. reflexivity.
  - exact (IH i H).
Qed.

Section Report.

Context (env : environ).

Lemma verify_dapp_auth_adds (auth : FractionAIAuth) (w : world) :
  exists evs,
    trace (snd (verify_dapp_auth env auth w)) = trace w ++ evs /\
    forallb task_event evs = true.
Proof.
  rewrite verify_dapp_auth_unfold.
  destruct (fetch_nonce_loop_events env 3 (seq 0 3) w) as (_ & evs & Htr & Hev & _).
  cbn zeta in Htr. fold (fetch_nonce env w) in Htr.
  assert (Htask : forallb task_event evs = true).
  { apply (forallb_weaken nonce_event); [|exact Hev].
    intros e He. apply verify_event_task, nonce_event_verify, He. }
  destruct (fetch_nonce env w) as [[nonce|e] w1]; cbn [snd] in Htr.
  2:{ exists evs. auto. }
  destruct (negb (truthy nonce)).
  { eexists. cbn. rewrite Htr, <- app_assoc. split; [reflexivity|].
    rewrite forallb_app, Htask. reflexivity. }
  cbn zeta.
  destruct (attempt (auth_net env (requests_made w1))) as [v|e];
    [|destruct (is_RequestException e)];
    eexists; cbn; rewrite Htr, <- ?app_assoc; (split; [reflexivity|]);
    rewrite forallb_app, Htask; reflexivity.
Qed.

Lemma refresh_token_adds (key : option string) (st : state) :
  exists evs,
    trace (out (snd (refresh_token env key st))) = trace (out st) ++ evs /\
    forallb task_event evs = true.
Proof.
  rewrite refresh_token_unfold. cbn zeta.
  destruct (FractionAIAuth_init env key) as [auth|e].
  2:{ eexists. cbn. split; reflexivity. }
  destruct (verify_dapp_auth_adds auth
              (out (state_trace (fun t => t ++ [RefreshToken key]) st)))
    as (evs & Htr & Hev).
  destruct (verify_dapp_auth env auth _) as [[v|e] w]; cbn [snd] in Htr;
    [destruct (truthy v)|];
    eexists; cbn; rewrite Htr; cbn; rewrite <- ?app_assoc; (split; [reflexivity|]);
    cbn; rewrite ?forallb_app, Hev; reflexivity.
Qed.

Lemma handle_response_adds (agent_id : Z) (rep : post_reply) (st : state) :
  exists evs,
    trace (out (snd (handle_response env agent_id rep st))) = trace (out st) ++ evs /\
    forallb task_event evs = true.
Proof.
  destruct (handle_response_cases env agent_id rep st)
    as [(e & -> & _)|[(data & _ & _ & ->)|[(s & d & err & _ & _ & _ & _ & _ & ->)
       |[(s & d & _ & _ & _ & ->)|(s & d & _ & _ & _ & ->)]]]]; cbn [snd].
  - exists []. rewrite app_nil_r. auto.
  - eexists. cbn. split; reflexivity.
  - eexists. cbn. rewrite <- app_assoc. split; reflexivity.
  - rewrite log_error_and_wait_adds. eexists. cbn. rewrite <- app_assoc.
    split; reflexivity.
  - destruct (refresh_token_adds (PRIVATE_KEY env) st) as (evs & Htr & Hev).
    destruct (refresh_token env (PRIVATE_KEY env) st) as [[u|e] st']; cbn [snd] in *.
    + rewrite log_error_and_wait_adds. eexists. cbn. rewrite Htr, <- !app_assoc.
      split; [reflexivity|]. rewrite forallb_app, Hev. reflexivity.
    + exists evs. auto.
Qed.

(** A resumption adds only events of the task: none of the lines of
    the report of [run]. *)
Lemma resume_adds (agent_id : Z) (draw : nat) (rep : post_reply)
    (c : coroutine) (st : state) :
  exists evs,
    trace (out (snd (resume env agent_id draw rep c st))) = trace (out st) ++ evs /\
    forallb task_event evs = true.
Proof.
  destruct c as [| |secs|res]; cbn [resume snd];
    try (exists []; rewrite app_nil_r; auto; fail).
  - destruct (send_request_cases agent_id draw st) as [[_ ->]|(fee & _ & ->)]; cbn.
    + exists []. rewrite app_nil_r. auto.
    + eexists. split; reflexivity.
  - unfold try_except.
    destruct (handle_response_adds agent_id rep st) as (evs & Htr & Hev).
    destruct (handle_response env agent_id rep st) as [[[v|secs]|e] st2];
      cbn [fst snd settle] in *; try (exists evs; auto; fail).
    destruct (is_TimeoutError_or_ClientError e); cbn [snd settle];
      [|exists evs; auto].
    eexists. cbn. rewrite Htr, <- !app_assoc. split; [reflexivity|].
    rewrite forallb_app, Hev. reflexivity.
Qed.

(** What a resumption makes of the result of its task. *)
Lemma resume_result (agent_id : Z) (draw : nat) (rep : post_reply)
    (c : coroutine) (st : state) :
  result_sound rep c ->
  result_sound rep (fst (resume env agent_id draw rep c st)).
Proof.
  intros Hc. destruct c as [| |secs|res]; cbn [resume fst].
  - destruct (send_request_cases agent_id draw st) as [[_ ->]|(fee & _ & ->)]; cbn; auto.
  - unfold try_except.
    destruct (handle_response_cases env agent_id rep st)
      as [(e & -> & _)|[(data & Hrep & _ & ->)|[(s & d & err & _ & _ & _ & _ & _ & ->)
         |[(s & d & _ & _ & _ & ->)|(s & d & _ & _ & _ & ->)]]]].
    + destruct (is_TimeoutError_or_ClientError e) eqn:He; cbn; auto.
    + cbn. intros _. exact Hrep.
    + cbn. auto.
    + cbn. auto.
    + destruct (refresh_token env (PRIVATE_KEY env) st) as [[u|e] st']; [cbn; auto|].
      destruct (is_TimeoutError_or_ClientError e) eqn:He; cbn; auto.
  - cbn. discriminate.
  - exact Hc.
Qed.

Lemma line_sound_task (roster : list Z) (lo hi : nat) (e : event) :
  task_event e = true -> line_sound env roster lo hi e.
Proof. destruct e as [lvl []| | | | | |]; intros H; try discriminate; exact I. Qed.

Lemma line_sound_widen (roster : list Z) (lo hi lo' hi' : nat) (e : event) :
  lo' <= lo -> hi <= hi' ->
  line_sound env roster lo hi e -> line_sound env roster lo' hi' e.
Proof.
  intros Hlo Hhi. destruct e as [lvl []| | | | | |]; cbn; auto.
  intros (cyc & i & v & Hc & H). exists cyc, i, v. split; [lia|exact H].
Qed.

(** The report of a cycle, read against the answers of that cycle. *)
Lemma cycle_report_sound (roster : list Z) (cyc : nat) (tasks : list (Z * coroutine)) :
  results_sound env cyc tasks ->
  Forall (line_sound env roster cyc cyc) (cycle_report roster tasks).
Proof.
  intros Hsound. apply Forall_forall. intros line Hline.
  apply list_elem_of_In, in_concat in Hline as (lines & Hlines & Hline).
  apply in_map_iff in Hlines as ([a c] & <- & Hpair).
  apply list_elem_of_In, elem_of_lookup_zip_with_1 in Hpair
    as (i & a' & c' & Heq & Ha & Hc).
  injection Heq as <- <-.
  change (map snd tasks) with (snd <$> tasks) in Hc.
  rewrite list_lookup_fmap in Hc.
  destruct (tasks !! i) as [[b c']|] eqn:Htask; [|discriminate].
  cbn in Hc. injection Hc as ->.
  specialize (Hsound i b c Htask). cbn [fst snd] in Hline.
  destruct c as [| | |[v|e]]; cbn in Hline; try contradiction.
  - destruct (json_truthy v) eqn:Hv; [|contradiction].
    destruct Hline as [<-|[]]. cbn.
    exists cyc, i, v. split; [lia|]. split; [exact Ha|]. split; [|exact Hv].
    apply Hsound. exact Hv.
  - destruct Hline as [<-|[]]. exact Hsound.
Qed.

(** One step of the loop: the results stay sound and whatever is
    written is sound. *)
Lemma step_reports (pick : nat) (r : runner) :
  results_sound_at env r ->
  results_sound_at env (step env pick r) /\
  exists evs,
    trace (out (now (step env pick r))) = trace (out (now r)) ++ evs /\
    Forall (line_sound env (agent_ids (self (now r))) (cycle r) (cycle r)) evs.
Proof.
  intros Hsound. unfold results_sound_at in Hsound.
  destruct (at_phase r) as [|tasks|] eqn:Hphase.
  - rewrite (step_top env pick r Hphase). unfold results_sound_at. cbn. split.
    + intros i a c Hi. rewrite (created_tasks_lookup _ _ _ _ Hi). exact I.
    + exists []. rewrite app_nil_r. split; [reflexivity|constructor].
  - destruct (step_gather_cases env pick r tasks Hphase)
      as [[_ Hstep]|[(_ & _ & Hstep)|(_ & a & c & Hpick & Hstep)]].
    + rewrite Hstep. unfold results_sound_at. cbn. split; [exact I|].
      eexists. split; [reflexivity|]. apply Forall_app. split.
      * apply cycle_report_sound, Hsound.
      * repeat constructor.
    + rewrite Hstep. unfold results_sound_at. rewrite Hphase. split; [exact Hsound|].
      exists []. rewrite app_nil_r. split; [reflexivity|constructor].
    + cbn zeta in Hstep. rewrite Hstep. unfold results_sound_at. cbn. split.
      * intros i b c0 Hi. destruct (Nat.eq_dec i pick) as [->|Hne].
        -- rewrite list_lookup_insert_eq in Hi by exact (lookup_lt_Some _ _ _ Hpick).
           injection Hi as <- <-. apply resume_result. exact (Hsound pick a c Hpick).
        -- rewrite list_lookup_insert_ne in Hi by auto. exact (Hsound i b c0 Hi).
      * destruct (resume_adds a (fee_draw env (cycle r) pick)
                    (initiate_net env (cycle r) pick) c (now r)) as (evs & Htr & Hev).
        exists evs. split; [exact Htr|].
        apply (forallb_Forall_task _ evs); [|exact Hev].
        intros e. apply line_sound_task.
  - rewrite (step_wake env pick r Hphase). unfold results_sound_at. cbn.
    split; [exact I|]. exists []. rewrite app_nil_r. split; [reflexivity|constructor].
Qed.

Lemma run_reports (schedule : list nat) (r : runner) :
  results_sound_at env r ->
  exists evs,
    trace (out (now (run env schedule r))) = trace (out (now r)) ++ evs /\
    Forall (line_sound env (agent_ids (self (now r)))
              (cycle r) (cycle (run env schedule r))) evs.
Proof.
  revert r. induction schedule as [|pick rest IH]; intros r Hsound.
  - exists []. rewrite app_nil_r. split; [reflexivity|constructor].
  - cbn [run].
    destruct (step_reports pick r Hsound) as (Hsound1 & evs1 & Htr1 & Hev1).
    destruct (IH _ Hsound1) as (evs2 & Htr2 & Hev2).
    assert (Hroster : agent_ids (self (now (step env pick r)))
                      = agent_ids (self (now r))).
    { exact (step_keeps env (fun g _ => agent_ids g = agent_ids (self (now r)))
               (fun g f tok H _ => H) pick r eq_refl). }
    rewrite Hroster in Hev2.
    pose proof (step_cycle_mono env pick r) as Hmono1.
    pose proof (run_cycle_mono env rest (step env pick r)) as Hmono2.
    exists (evs1 ++ evs2). rewrite Htr2, Htr1, app_assoc. split; [reflexivity|].
    apply Forall_app. split.
    + apply (Forall_impl _ _ _ Hev1). intros e. apply line_sound_widen; lia.
    + apply (Forall_impl _ _ _ Hev2). intros e. apply line_sound_widen; lia.
Qed.

(** X17: what the report of [run] is worth.  From the top of the loop on,
    every line "Successfully processed agent a" stems from a cycle in
    which a roster position of agent [a] was answered with status 200
    and a truthy body, and no line "Error processing agent" names an
    exception of the classes [initiate_match] catches itself
    ([TimeoutError], [aiohttp.ClientError]). *)
Theorem reported_results_are_sound (schedule : list nat) (r : runner) :
  at_phase r = LoopTop ->
  exists evs,
    trace (out (now (run env schedule r))) = trace (out (now r)) ++ evs /\
    (forall lvl a,
       In (Log lvl (Successfully_processed_agent a)) evs ->
       exists cyc i v,
         cycle r <= cyc <= cycle (run env schedule r) /\
         agent_ids (self (now r)) !! i = Some a /\
         initiate_net env cyc i = PostResponse 200 (Return v) /\
         json_truthy v = true) /\
    (forall lvl a e,
       In (Log lvl (Error_processing_agent a e)) evs ->
       is_TimeoutError_or_ClientError e = false).
Proof.
  intros Hphase.
  destruct (run_reports schedule r) as (evs & Htr & Hev).
  { unfold results_sound_at. rewrite Hphase. exact I. }
  exists evs. split; [exact Htr|].
  rewrite Forall_forall in Hev. split.
  - intros lvl a Hin. exact (Hev _ (proj2 (list_elem_of_In _ _) Hin)).
  - intros lvl a e Hin. exact (Hev _ (proj2 (list_elem_of_In _ _) Hin)).
Qed.

End Report.

(** ** The success of a call *)

Lemma refresh_event_verify (e : event) : verify_event e = true -> refresh_event e = true.
Proof. destruct e as [[] []| | | | | |]; intros H; (discriminate || reflexivity). Qed.

Section Success.

Context (env : environ).

Lemma verify_dapp_auth_events (auth : FractionAIAuth) (w : world) :
  exists evs,
    trace (snd (verify_dapp_auth env auth w)) = trace w ++ evs /\
    forallb verify_event evs = true.
Proof.
  rewrite verify_dapp_auth_unfold.
  destruct (fetch_nonce_loop_events env 3 (seq 0 3) w) as (_ & evs & Htr & Hev & _).
  cbn zeta in Htr. fold (fetch_nonce env w) in Htr.
  assert (Hweak : forallb verify_event evs = true)
    by exact (forallb_weaken nonce_event verify_event evs nonce_event_verify Hev).
  destruct (fetch_nonce env w) as [[nonce|e] w1]; cbn [snd] in Htr.
  2:{ exists evs. auto. }
  destruct (negb (truthy nonce)).
  { eexists. cbn. rewrite Htr, <- app_assoc. split; [reflexivity|].
    rewrite forallb_app, Hweak. reflexivity. }
  cbn zeta.
  destruct (attempt (auth_net env (requests_made w1))) as [v|e];
    [|destruct (is_RequestException e)];
    eexists; cbn; rewrite Htr, <- ?app_assoc; (split; [reflexivity|]);
    rewrite forallb_app, Hweak; reflexivity.
Qed.

(** A call of [refresh_token] writes none of the lines of
    [initiate_match]. *)
Lemma refresh_token_events (key : option string) (st : state) :
  exists evs,
    trace (out (snd (refresh_token env key st))) = trace (out st) ++ evs /\
    forallb refresh_event evs = true.
Proof.
  rewrite refresh_token_unfold. cbn zeta.
  destruct (FractionAIAuth_init env key) as [auth|e].
  2:{ eexists. cbn. split; reflexivity. }
  destruct (verify_dapp_auth_events auth
              (out (state_trace (fun t => t ++ [RefreshToken key]) st)))
    as (evs & Htr & Hev).
  assert (Hweak : forallb refresh_event evs = true)
    by exact (forallb_weaken verify_event refresh_event evs refresh_event_verify Hev).
  destruct (verify_dapp_auth env auth _) as [[v|e] w]; cbn [snd] in Htr;
    [destruct (truthy v)|];
    eexists; cbn; rewrite Htr; cbn; rewrite <- ?app_assoc; (split; [reflexivity|]);
    cbn; rewrite ?forallb_app, Hweak; reflexivity.
Qed.

(** C4, as the code has it: the body of the answer is decoded before the
    status is looked at, and the answer is a success exactly when its
    status is 200 and its body decodes.
    - Then the payload is returned and nothing but the request and the
      line of the success happened: no sleep, no refresh.
    - That line is written for no other answer.
    - Whatever else the call returns is [None].
    - An answer whose body does not decode is no success, whatever its
      status, 200 included: the exception of [response.json()] is
      logged and followed by a sleep of 5 seconds and [None] when it is
      a [TimeoutError] or an [aiohttp.ClientError], and leaves the call
      otherwise. *)
Theorem success_is_status_200 (agent_id : Z) (draw : nat) (st : state) :
  entry_fees (self st) <> [] ->
  (forall data,
     let r := initiate_match env agent_id draw (PostResponse 200 (Return data)) st in
     fst r = Return data /\
     (exists fee,
        adds [initiate_event (self st) agent_id fee;
              Log INFO (Match_initiated agent_id)] st (snd r)) /\
     slept (trace (out (snd r))) = slept (trace (out st)) /\
     refresh_calls (trace (out (snd r))) = refresh_calls (trace (out st))) /\
  (forall rep evs,
     trace (out (snd (initiate_match env agent_id draw rep st))) = trace (out st) ++ evs ->
     (In (Log INFO (Match_initiated agent_id)) evs <->
      exists data, rep = PostResponse 200 (Return data))) /\
  (forall rep v,
     fst (initiate_match env agent_id draw rep st) = Return v ->
     v = JNull \/ rep = PostResponse 200 (Return v)) /\
  (forall status e,
     let r := initiate_match env agent_id draw (PostResponse status (Raise e)) st in
     exists fee,
       if is_TimeoutError_or_ClientError e then
         fst r = Return JNull /\
         adds [initiate_event (self st) agent_id fee;
               Log ERROR (Attempt_failed e);
               Sleep 5] st (snd r)
       else
         fst r = Raise e /\
         adds [initiate_event (self st) agent_id fee] st (snd r)).
Proof.
  intros Hfees.
  destruct (send_request_nonempty agent_id draw st Hfees) as [fee Hsend].
  split; [|split; [|split]].
  - intros data r. subst r.
    rewrite (initiate_match_unfold env _ _ _ _ _ Hsend), handle_response_unfold.
    cbn. split; [reflexivity|]. split.
    + exists fee. unfold adds. cbn. rewrite <- !app_assoc. auto.
    + rewrite <- app_assoc, slept_app. unfold refresh_calls.
      rewrite count_events_app. cbn. split; lia.
  - intros rep evs. rewrite (initiate_match_unfold env _ _ _ _ _ Hsend).
    destruct (handle_response_cases env agent_id rep
                (add_events [initiate_event (self st) agent_id fee] st))
      as [(e & Hh & _)|[(data & -> & _ & ->)|[(s & d & err & -> & Hs & _ & _ & _ & ->)
         |[(s & d & -> & Hs & _ & ->)|(s & d & -> & Hs & _ & ->)]]]].
    + assert (Hrep : ~ exists data, rep = PostResponse 200 (Return data)).
      { intros [data ->]. rewrite handle_response_unfold in Hh. discriminate. }
      rewrite Hh.
      destruct (is_TimeoutError_or_ClientError e); cbn; rewrite <- ?app_assoc;
        intros H; apply app_inv_head in H; subst evs;
        (split; [|intros Hx; exfalso; exact (Hrep Hx)]);
        cbn; intuition discriminate.
    + cbn. rewrite <- app_assoc. intros H. apply app_inv_head in H. subst evs.
      split; [eauto|]. intros _. right. left. reflexivity.
    + cbn. rewrite <- !app_assoc. intros H. apply app_inv_head in H. subst evs.
      split.
      * cbn. intros [H|[H|[H|[]]]]; discriminate.
      * intros [data H]. injection H as H _. contradiction.
    + rewrite log_error_and_wait_adds. cbn. rewrite <- !app_assoc.
      intros H. apply app_inv_head in H. subst evs. split.
      * cbn. intros [H|[H|[H|[]]]]; discriminate.
      * intros [data H]. injection H as H _. contradiction.
    + destruct (refresh_token_events (PRIVATE_KEY env)
                  (add_events [initiate_event (self st) agent_id fee] st))
        as (revs & Htr & Hev).
      assert (Hnone : ~ In (Log INFO (Match_initiated agent_id)) revs).
      { intros Hin. rewrite forallb_forall in Hev. specialize (Hev _ Hin). discriminate. }
      destruct (refresh_token env (PRIVATE_KEY env) _) as [[u|e] st'];
        cbn [snd] in Htr.
      * rewrite log_error_and_wait_adds. cbn. rewrite Htr. cbn. rewrite <- !app_assoc.
        intros H. apply app_inv_head in H. subst evs. split.
        -- cbn. rewrite in_app_iff. cbn. intros [H|[H|[H|[H|[]]]]];
             (discriminate || contradiction).
        -- intros [data H]. injection H as H _. contradiction.
      * destruct (is_TimeoutError_or_ClientError e); cbn; rewrite Htr; cbn;
          rewrite <- ?app_assoc; intros H; apply app_inv_head in H; subst evs;
          (split; [|intros [data H]; injection H as H _; contradiction]);
          cbn; rewrite ?in_app_iff; cbn; intuition discriminate.
  - intros rep v. rewrite (initiate_match_unfold env _ _ _ _ _ Hsend).
    destruct (handle_response_cases env agent_id rep
                (add_events [initiate_event (self st) agent_id fee] st))
      as [(e & -> & _)|[(data & -> & _ & ->)|[(s & d & err & _ & _ & _ & _ & _ & ->)
         |[(s & d & _ & _ & _ & ->)|(s & d & _ & _ & _ & ->)]]]].
    + destruct (is_TimeoutError_or_ClientError e); cbn; intros H;
        [injection H as <-; auto|discriminate].
    + cbn. intros H. injection H as <-. auto.
    + cbn. intros H. injection H as <-. auto.
    + cbn. intros H. injection H as <-. auto.
    + destruct (refresh_token env (PRIVATE_KEY env) _) as [[u|e] st'].
      * cbn. intros H. injection H as <-. auto.
      * destruct (is_TimeoutError_or_ClientError e); cbn; intros H;
          [injection H as <-; auto|discriminate].
  - intros status e r. subst r. exists fee.
    rewrite (initiate_match_unfold env _ _ _ _ _ Hsend), handle_response_unfold.
    destruct (is_TimeoutError_or_ClientError e); cbn [fst snd];
      (split; [reflexivity|]); unfold adds; cbn; rewrite <- ?app_assoc; auto.
Qed.

End Success.

(** ** Instances *)

(** A match is initiated. *)
Lemma success_is_status_200_witness :
  fst (initiate_match (sample_environ auth_unreachable (every_agent not_found_reply))
         26641 0 (PostResponse 200 (Return (JObj [("id", JNum 1)]))) sample_state)
  = Return (JObj [("id", JNum 1)]).
Proof.
  pose (env := sample_environ auth_unreachable (every_agent not_found_reply)).
  assert (H1 : entry_fees (self sample_state) <> []) by discriminate.
  destruct (success_is_status_200 env 26641 0 sample_state H1) as [Hok _].
  exact (proj1 (Hok (JObj [("id", JNum 1)]))).
Defined.


(** The verification request of a refresh against a server that grants
    a token. *)
Lemma refresh_verification_is_signed_witness :
  "0xsignature"
  = sign (sample_environ (auth_grants "new-token") (every_agent invalid_token_reply))
      (Some "0x01")
      (fst (generate_auth_payload
              (sample_environ (auth_grants "new-token") (every_agent invalid_token_reply))
              sample_auth "abc123")).
Proof.
  pose (env := sample_environ (auth_grants "new-token") (every_agent invalid_token_reply)).
  pose (msg := fst (generate_auth_payload env sample_auth "abc123")).
  pose (evs := [RefreshToken (Some "0x01");
                HttpGet (BASE_URL +:+ "/auth/nonce");
                HttpPost (BASE_URL +:+ "/auth/verify") msg "0xsignature";
                FileWrite ACCESS_TOKEN_TXT "new-token";
                Log INFO Token_refreshed_successfully]).
  assert (H1 : trace (out (snd (refresh_token env (Some "0x01") sample_state)))
               = trace (out sample_state) ++ evs) by reflexivity.
  assert (H2 : In (HttpPost (BASE_URL +:+ "/auth/verify") msg "0xsignature") evs)
    by (right; right; left; reflexivity).
  exact (proj1 (proj2 (refresh_verification_is_signed env (Some "0x01") sample_state
                         _ _ _ evs H1 H2))).
Defined.

(** The request times out. *)
Lemma failed_request_waits_5_seconds_witness :
  fst (initiate_match (sample_environ auth_unreachable (every_agent timeout_reply))
         26641 0 timeout_reply sample_state)
  = Return JNull.
Proof.
  pose (env := sample_environ auth_unreachable (every_agent timeout_reply)).
  assert (H1 : entry_fees (self sample_state) <> []) by discriminate.
  assert (H2 : request_raises timeout_reply = Some TimeoutError) by reflexivity.
  destruct (failed_request_waits_5_seconds env 26641 0 timeout_reply sample_state
              TimeoutError H1 H2) as (fee & _ & Hr & _).
  exact Hr.
Defined.

(** A server error without a token marker. *)
Lemma no_refresh_unless_token_rejected_witness :
  exists evs,
    adds evs sample_state
      (snd (initiate_match (sample_environ auth_unreachable (every_agent server_error_reply))
              26641 0 server_error_reply sample_state)) /\
    refresh_calls evs = 0.
Proof.
  pose (env := sample_environ auth_unreachable (every_agent server_error_reply)).
  assert (H1 : auth_expired server_error_reply = false) by reflexivity.
  destruct (no_refresh_unless_token_rejected env 26641 0 server_error_reply sample_state H1)
    as (evs & Hadds & Hcalls & _).
  exists evs. split; [exact Hadds|exact Hcalls].
Defined.

(** No key in the environment and a token that the server rejects. *)
Lemma rejected_key_escapes_initiate_match_witness :
  fst (initiate_match (keyless_environ (every_agent invalid_token_reply))
         26641 0 invalid_token_reply sample_state)
  = Raise TypeError.
Proof.
  pose (env := keyless_environ (every_agent invalid_token_reply)).
  assert (H1 : entry_fees (self sample_state) <> []) by discriminate.
  assert (H2 : auth_expired invalid_token_reply = true) by reflexivity.
  assert (H3 : from_key env (PRIVATE_KEY env) = Raise TypeError) by reflexivity.
  destruct (rejected_key_escapes_initiate_match env 26641 0 invalid_token_reply
              sample_state TypeError H1 H2 H3) as (fee & _ & Hr & _).
  exact Hr.
Defined.

(** A token file that ends with a newline. *)
Lemma main_with_token_file_witness :
  fst (main (sample_environ auth_unreachable (every_agent not_found_reply))
         (world_with_file (" saved-token" +:+ nl)))
  = Return (Some {| now := {| self := GameSession_init "saved-token" 17267;
                              out := world_with_file (" saved-token" +:+ nl) |};
                    at_phase := LoopTop;
                    cycle := 0 |}).
Proof.
  pose (env := sample_environ auth_unreachable (every_agent not_found_reply)).
  assert (H1 : fs (world_with_file (" saved-token" +:+ nl)) = Some (" saved-token" +:+ nl))
    by reflexivity.
  destruct (main_with_token_file env _ _ H1) as (_ & _ & _ & _ & _ & Hr).
  assert (H2 : strip (read_translate (" saved-token" +:+ nl)) <> "") by discriminate.
  exact (f_equal fst (Hr H2)).
Defined.


(** The sample session keeps a token through a cycle with two
    refreshes. *)
Lemma token_never_empty_witness :
  token (self (now (run (sample_environ (auth_grants "new-token") two_agents_expired)
                      sample_schedule sample_runner)))
  <> "".
Proof.
  pose (env := sample_environ (auth_grants "new-token") two_agents_expired).
  assert (H1 : token (self (now sample_runner)) <> "") by discriminate.
  exact (token_never_empty env sample_schedule sample_runner H1).
Defined.

(** Two agents are told that the token is invalid: eight requests at
    most. *)
Lemma cycle_authentication_cost_witness :
  requests_made
    (out (now (run (sample_environ (auth_grants "new-token") two_agents_expired)
                 sample_schedule sample_runner)))
  <= 8.
Proof.
  pose (env := sample_environ (auth_grants "new-token") two_agents_expired).
  assert (H1 : at_phase sample_runner = LoopTop) by reflexivity.
  assert (H2 : at_phase (run env sample_schedule sample_runner) = CycleSleep)
    by (vm_compute; reflexivity).
  assert (H3 : cycle (run env sample_schedule sample_runner) = cycle sample_runner)
    by (vm_compute; reflexivity).
  exact (proj2 (cycle_authentication_cost env sample_schedule sample_runner H1 H2 H3)).
Defined.

(** The report of a cycle in which two agents are told that the token is
    invalid and the others get a match. *)
Lemma reported_results_are_sound_witness :
  exists evs,
    trace (out (now (run (sample_environ (auth_grants "new-token") two_agents_expired)
                       (sample_schedule ++ [0]) sample_runner)))
    = trace (out (now sample_runner)) ++ evs /\
    forall lvl a e,
      In (Log lvl (Error_processing_agent a e)) evs ->
      is_TimeoutError_or_ClientError e = false.
Proof.
  pose (env := sample_environ (auth_grants "new-token") two_agents_expired).
  assert (H1 : at_phase sample_runner = LoopTop) by reflexivity.
  destruct (reported_results_are_sound env (sample_schedule ++ [0]) sample_runner H1)
    as (evs & Htr & _ & Herr).
  exists evs. split; [exact Htr|exact Herr].
Defined.
